(** * cvtsudoers: the invocation set-up pipeline of [plugins/sudoers/cvtsudoers.c]

    A shallow embedding of [main], [get_hostname], [usage], [help] and the
    stub functions of cvtsudoers.c, with the properties of its argument
    handling, identity resolution, hostname resolution and exit status.

    The C program is modelled as a computation over an explicit [world]
    (the heap of character buffers, the global [sudo_user], the program name
    and the trace of observable events) that either returns, or ends the
    process with an exit status.  Everything the program asks of its
    surroundings (argument vector, environment, passwd database, host name,
    allocation, the exporter) is a field of the record [sys]. *)

From Stdlib Require Import ZArith Ascii String List Lia DecimalString.
From stdpp Require Import gmap strings list.

(* ===================================================================== *)
(** * C strings *)
(* ===================================================================== *)

Module CStr.

(** The terminating byte of a C string. *)
Definition NUL : ascii := "000"%char.

(** A newline, for the format strings that end in one. *)
Definition nl : string := String "010"%char "".

(** [tolower(3)] in the "C" locale: only 'A'..'Z' are mapped. *)
Definition tolower (c : ascii) : ascii :=
  let n := nat_of_ascii c in
  if (65 <=? n)%nat && (n <=? 90)%nat then ascii_of_nat (n + 32) else c.

Definition byte (c : ascii) : Z := Z.of_nat (nat_of_ascii c).

(** [strcasecmp(3)]: the difference of the first pair of bytes that differ
    after [tolower], 0 when there is none. *)
Fixpoint strcasecmp (s1 s2 : string) : Z :=
  match s1, s2 with
  | EmptyString, EmptyString => 0
  | EmptyString, String c2 _ => (0 - byte (tolower c2))%Z
  | String c1 _, EmptyString => byte (tolower c1)
  | String c1 r1, String c2 r2 =>
      if Ascii.eqb (tolower c1) (tolower c2) then strcasecmp r1 r2
      else (byte (tolower c1) - byte (tolower c2))%Z
  end.

(** The bytes a buffer holds as a C string: those before the first NUL. *)
Fixpoint cstr (buf : list ascii) : list ascii :=
  match buf with
  | [] => []
  | c :: r => if Ascii.eqb c NUL then [] else c :: cstr r
  end.

(** [strchr(3)] on a buffer: the offset of the first [c] in the C string
    the buffer holds (the terminator counts as part of the string). *)
Fixpoint strchr (buf : list ascii) (c : ascii) : option nat :=
  match buf with
  | [] => None
  | x :: r =>
      if Ascii.eqb x c then Some 0%nat
      else if Ascii.eqb x NUL then None
      else S <$> strchr r c
  end.

(** A scan of the buffer for [c] or the terminator stops inside it: a
    buffer that holds neither is read past its end. *)
Fixpoint readable (buf : list ascii) (c : ascii) : bool :=
  match buf with
  | [] => false
  | x :: r => Ascii.eqb x c || Ascii.eqb x NUL || readable r c
  end.

(** The buffer that holds the string [s]: its bytes and the terminator. *)
Definition buffer_of (s : string) : list ascii :=
  String.list_ascii_of_string s ++ [NUL].

(** The string a buffer reads as. *)
Definition string_of (buf : list ascii) : string :=
  String.string_of_list_ascii (cstr buf).

End CStr.

(* ===================================================================== *)
(** * getopt_long *)
(* ===================================================================== *)

(** Modelled from the spec: [getopt_long] is the C library's, or the copy
    the repository keeps for systems without one; neither is under src/.
    The specification has the parser recognise "short/long options
    -f/--format, -h/--help, -o/--output, -V/--version, plus an optional
    trailing positional input path".  The scanning rules are those of
    getopt_long(3): short options may be clustered and carry their argument
    attached or as the next element; a long option may be abbreviated to a
    prefix no other has and carries its argument after [=] or as the next
    element; [--] ends the options; operands may stand between options and
    are moved behind them.  An unknown option, a missing argument and an
    argument given to an option that takes none are answered with [?];
    the message getopt_long writes to the standard error before it answers
    [?] is written by the call [getopt_long] below, not by this scanner. *)
Module Getopt.

(** [struct option] of <getopt.h>, without the [flag] member (always NULL
    in this program). *)
Record option_ := {
  name : string;
  has_arg : bool;
  val : ascii;
}.

Definition no_argument : bool := false.
Definition required_argument : bool := true.

(** What one call returns: an option character with [optarg], or -1. *)
Inductive result :=
| Opt (ch : ascii) (optarg : option string)
| End_.

(** The scanning state between two calls: the elements of argv from
    [optind] on that were not looked at yet, the rest of the cluster of
    short options being read, and the operands passed over so far (the
    permutation getopt_long performs moves them behind the options). *)
Record state := {
  rest : list string;
  nextchar : string;
  skipped : list string;
}.

(** Does [c] occur in the option string, and does it take an argument? *)
Fixpoint short_lookup (optstring : string) (c : ascii) : option bool :=
  match optstring with
  | EmptyString => None
  | String o r =>
      if Ascii.eqb o c && negb (Ascii.eqb c ":"%char) then
        Some (match r with String ":"%char _ => true | _ => false end)
      else short_lookup r c
  end.

(** [name] or [name=value]. *)
Fixpoint split_eq (s : string) : string * option string :=
  match s with
  | EmptyString => (EmptyString, None)
  | String c r =>
      if Ascii.eqb c "="%char then (EmptyString, Some r)
      else let '(n, v) := split_eq r in (String c n, v)
  end.

(** A long option is named in full or by a prefix only one entry has. *)
Definition long_lookup (longopts : list option_) (n : string) : option option_ :=
  match List.filter (fun o => String.eqb (name o) n) longopts with
  | o :: _ => Some o
  | [] =>
      match List.filter (fun o => String.prefix n (name o)) longopts with
      | [o] => Some o
      | _ => None
      end
  end.

(** The option character [c] of a cluster whose remainder is [tail]. *)
Definition short_option (optstring : string) (c : ascii) (tail : string)
    (args skipped : list string) : result * state :=
  match short_lookup optstring c with
  | None => (Opt "?"%char None, {| rest := args; nextchar := tail; skipped := skipped |})
  | Some false => (Opt c None, {| rest := args; nextchar := tail; skipped := skipped |})
  | Some true =>
      match tail with
      | String _ _ =>
          (Opt c (Some tail), {| rest := args; nextchar := ""; skipped := skipped |})
      | EmptyString =>
          match args with
          | a :: args' =>
              (Opt c (Some a), {| rest := args'; nextchar := ""; skipped := skipped |})
          | [] =>
              (Opt "?"%char None, {| rest := []; nextchar := ""; skipped := skipped |})
          end
      end
  end.

(** The long option written [--body]. *)
Definition long_option (longopts : list option_) (body : string)
    (args skipped : list string) : result * state :=
  let '(n, v) := split_eq body in
  let st a := {| rest := a; nextchar := ""; skipped := skipped |} in
  match long_lookup longopts n with
  | None => (Opt "?"%char None, st args)
  | Some o =>
      if has_arg o then
        match v with
        | Some x => (Opt (val o) (Some x), st args)
        | None =>
            match args with
            | a :: args' => (Opt (val o) (Some a), st args')
            | [] => (Opt "?"%char None, st [])
            end
        end
      else
        match v with
        | Some _ => (Opt "?"%char None, st args)
        | None => (Opt (val o) None, st args)
        end
  end.

(** What an element of argv is to the scanner. *)
Inductive word :=
| Operand
| Terminator
| LongOpt (body : string)
| Cluster (c : ascii) (tail : string).

(** ["--"] ends the options, [--body] is a long option, [-c...] a cluster
    of short options; anything else (["-"] and [""] too) is an operand. *)
Definition classify (a : string) : word :=
  match a with
  | String c0 (String c1 body) =>
      if Ascii.eqb c0 "-"%char then
        if Ascii.eqb c1 "-"%char then
          match body with
          | EmptyString => Terminator
          | String _ _ => LongOpt body
          end
        else Cluster c1 body
      else Operand
  | _ => Operand
  end.

(** Look for the next option among [args], passing over operands. *)
Fixpoint scan (optstring : string) (longopts : list option_)
    (args skipped : list string) : result * state :=
  match args with
  | [] => (End_, {| rest := []; nextchar := ""; skipped := skipped |})
  | a :: args' =>
      match classify a with
      | Terminator => (End_, {| rest := args'; nextchar := ""; skipped := skipped |})
      | LongOpt body => long_option longopts body args' skipped
      | Cluster c tail => short_option optstring c tail args' skipped
      | Operand => scan optstring longopts args' (skipped ++ [a])
      end
  end.

Definition getopt_long (optstring : string) (longopts : list option_)
    (g : state) : result * state :=
  match nextchar g with
  | String c tail => short_option optstring c tail (rest g) (skipped g)
  | EmptyString => scan optstring longopts (rest g) (skipped g)
  end.

(** The state before the first call: [optind] is 1. *)
Definition start (argv : list string) : state :=
  {| rest := tail argv; nextchar := ""; skipped := [] |}.

(** [argv + optind] once -1 was returned: the operands. *)
Definition operands (g : state) : list string := skipped g ++ rest g.

(** A bound on the number of calls that are left before -1. *)
Definition budget (g : state) : nat :=
  String.length (nextchar g)
  + fold_right (fun a n => S (String.length a + n)) 0%nat (rest g).

End Getopt.

(* ===================================================================== *)
(** * Data model *)
(* ===================================================================== *)

Import CStr.

(** [struct passwd] of <pwd.h>. *)
Record passwd := {
  pw_name : string;
  pw_uid : Z;
  pw_gid : Z;
  pw_gecos : string;
  pw_dir : string;
  pw_shell : string;
}.

(** A [char *]: the null pointer, a string literal of the program text, or
    the start of a buffer of the heap. *)
Inductive cptr :=
| NULL
| Lit (s : string)
| Ref (l : nat).

(** Modelled from the spec: [struct sudo_user] is declared in sudoers.h,
    which is not under src/.  These are the members cvtsudoers.c assigns,
    through the accessor macros [user_host], [user_shost], [user_runhost],
    [user_srunhost], [user_cmnd] and [user_base] (the Identity and HostInfo
    of the spec's data model). *)
Record sudo_user_t := {
  pw : option passwd;
  host : cptr;
  shost : cptr;
  runhost : cptr;
  srunhost : cptr;
  cmnd : cptr;
  cmnd_base : cptr;
}.

(** What a run lets the outside see. *)
Inductive event :=
| Stdout (text : string)
| Stderr (text : string)
| Warnx (text : string)
| Fatalx (text : string)
| Export (input output : string) (ok : bool).

(** The state of the process. *)
Record world := {
  heap : gmap nat (list ascii);
  brk : nat;
  sudo_user : sudo_user_t;
  progname : string;
  trace : list event;
}.

(** The surroundings of the process, and what the functions of the
    repository and of libc that cvtsudoers.c calls, and that are not under
    src/, answer: the argument vector; the environment; [geteuid] and
    [getuid]; [sudo_getpwnam] and [sudo_getpwuid]; the host name
    [sudo_gethostname] finds, if any; whether [strdup] finds memory;
    what getopt_long writes to the standard error when it answers [?] in
    a scanning state (the wording is the C library's);
    whether [sudoers_initlocale] succeeds; what [sudo_conf_read] returns;
    whether [sudoers_debug_register] and [init_defaults] succeed; what
    [export_sudoers] answers for an input and an output path; the name
    [initprogname] keeps of [argv[0]]; and the two version constants of
    config.h and gram.h. *)
Record sys := {
  sys_argv : list string;
  sys_environ : gmap string string;
  sys_euid : Z;
  sys_uid : Z;
  sys_getpwnam : string -> option passwd;
  sys_getpwuid : Z -> option passwd;
  sys_hostname : option string;
  sys_strdup_ok : bool;
  sys_getopt_message : Getopt.state -> string;
  sys_initlocale : bool;
  sys_conf_read : Z;
  sys_debug_register : bool;
  sys_init_defaults : bool;
  sys_export : string -> string -> bool;
  sys_progname : string -> string;
  PACKAGE_VERSION : string;
  SUDOERS_GRAMMAR_VERSION : Z;
}.

(** Static storage is zero-initialised: [sudo_user] starts all null. *)
Definition sudo_user0 : sudo_user_t :=
  {| pw := None; host := NULL; shost := NULL; runhost := NULL;
     srunhost := NULL; cmnd := NULL; cmnd_base := NULL |}.

Definition world0 : world :=
  {| heap := ∅; brk := 0; sudo_user := sudo_user0; progname := ""; trace := [] |}.

(* ===================================================================== *)
(** * Computations *)
(* ===================================================================== *)

(** A computation returns a value, ends the process with a status
    ([exit], or [main] returning), touches memory it may not touch, or
    uses up the budget of its loop. *)
Inductive outcome (A : Type) :=
| Ret (a : A) (w : world)
| Exit (status : Z) (w : world)
| Fault
| OutOfFuel.

Arguments Ret {A} a w.
Arguments Exit {A} status w.
Arguments Fault {A}.
Arguments OutOfFuel {A}.

Definition M (A : Type) : Type := world -> outcome A.

Definition ret {A} (a : A) : M A := fun w => Ret a w.

Definition bind {A B} (m : M A) (k : A -> M B) : M B :=
  fun w =>
    match m w with
    | Ret a w' => k a w'
    | Exit c w' => Exit c w'
    | Fault => Fault
    | OutOfFuel => OutOfFuel
    end.

Declare Scope prog_scope.
Notation "x ← y ; z" := (bind y (fun x => z))
  (at level 20, y at level 100, z at level 200, only parsing) : prog_scope.
Notation "' x ← y ; z" := (bind y (fun x => z))
  (at level 20, x pattern, y at level 100, z at level 200, only parsing) : prog_scope.
Notation "x ;; z" := (bind x (fun _ => z))
  (at level 100, z at level 200, only parsing, right associativity) : prog_scope.
Open Scope prog_scope.

Definition exit {A} (status : Z) : M A := fun w => Exit status w.
Definition fault {A} : M A := fun _ => Fault.
Definition out_of_fuel {A} : M A := fun _ => OutOfFuel.

(** ** Updates of the state *)

Definition with_trace (t : list event) (w : world) : world :=
  {| heap := heap w; brk := brk w; sudo_user := sudo_user w;
     progname := progname w; trace := t |}.

Definition with_sudo_user (u : sudo_user_t) (w : world) : world :=
  {| heap := heap w; brk := brk w; sudo_user := u;
     progname := progname w; trace := trace w |}.

Definition with_heap (h : gmap nat (list ascii)) (b : nat) (w : world) : world :=
  {| heap := h; brk := b; sudo_user := sudo_user w;
     progname := progname w; trace := trace w |}.

Definition with_progname (n : string) (w : world) : world :=
  {| heap := heap w; brk := brk w; sudo_user := sudo_user w;
     progname := n; trace := trace w |}.

Definition log (e : event) (w : world) : world := with_trace (trace w ++ [e]) w.

Definition upd_pw (p : option passwd) (u : sudo_user_t) : sudo_user_t :=
  {| pw := p; host := host u; shost := shost u; runhost := runhost u;
     srunhost := srunhost u; cmnd := cmnd u; cmnd_base := cmnd_base u |}.
Definition upd_host (p : cptr) (u : sudo_user_t) : sudo_user_t :=
  {| pw := pw u; host := p; shost := shost u; runhost := runhost u;
     srunhost := srunhost u; cmnd := cmnd u; cmnd_base := cmnd_base u |}.
Definition upd_shost (p : cptr) (u : sudo_user_t) : sudo_user_t :=
  {| pw := pw u; host := host u; shost := p; runhost := runhost u;
     srunhost := srunhost u; cmnd := cmnd u; cmnd_base := cmnd_base u |}.
Definition upd_runhost (p : cptr) (u : sudo_user_t) : sudo_user_t :=
  {| pw := pw u; host := host u; shost := shost u; runhost := p;
     srunhost := srunhost u; cmnd := cmnd u; cmnd_base := cmnd_base u |}.
Definition upd_srunhost (p : cptr) (u : sudo_user_t) : sudo_user_t :=
  {| pw := pw u; host := host u; shost := shost u; runhost := runhost u;
     srunhost := p; cmnd := cmnd u; cmnd_base := cmnd_base u |}.
Definition upd_cmnd (p : cptr) (u : sudo_user_t) : sudo_user_t :=
  {| pw := pw u; host := host u; shost := shost u; runhost := runhost u;
     srunhost := srunhost u; cmnd := p; cmnd_base := cmnd_base u |}.
Definition upd_base (p : cptr) (u : sudo_user_t) : sudo_user_t :=
  {| pw := pw u; host := host u; shost := shost u; runhost := runhost u;
     srunhost := srunhost u; cmnd := cmnd u; cmnd_base := p |}.

Definition emit (e : event) : M unit := fun w => Ret tt (log e w).

Definition get_sudo_user : M sudo_user_t := fun w => Ret (sudo_user w) w.
Definition put_sudo_user (u : sudo_user_t) : M unit :=
  fun w => Ret tt (with_sudo_user u w).

(** Assignments to the members of [sudo_user]. *)
Definition set_pw (p : option passwd) : M unit :=
  u ← get_sudo_user; put_sudo_user (upd_pw p u).
Definition set_user_host (p : cptr) : M unit :=
  u ← get_sudo_user; put_sudo_user (upd_host p u).
Definition set_user_shost (p : cptr) : M unit :=
  u ← get_sudo_user; put_sudo_user (upd_shost p u).
Definition set_user_runhost (p : cptr) : M unit :=
  u ← get_sudo_user; put_sudo_user (upd_runhost p u).
Definition set_user_srunhost (p : cptr) : M unit :=
  u ← get_sudo_user; put_sudo_user (upd_srunhost p u).
Definition set_user_cmnd (p : cptr) : M unit :=
  u ← get_sudo_user; put_sudo_user (upd_cmnd p u).
Definition set_user_base (p : cptr) : M unit :=
  u ← get_sudo_user; put_sudo_user (upd_base p u).

(** The accessor macros of sudoers.h, read. *)
Definition user_host (w : world) : cptr := host (sudo_user w).
Definition user_shost (w : world) : cptr := shost (sudo_user w).
Definition user_runhost (w : world) : cptr := runhost (sudo_user w).
Definition user_srunhost (w : world) : cptr := srunhost (sudo_user w).

(** ** Memory *)

(** A new buffer holding [buf]. *)
Definition alloc (buf : list ascii) : M cptr :=
  fun w =>
    Ret (Ref (brk w)) (with_heap (<[brk w := buf]> (heap w)) (S (brk w)) w).

(** The bytes behind a pointer.  A literal is read-only storage. *)
Definition load (p : cptr) : M (list ascii) :=
  fun w =>
    match p with
    | NULL => Fault
    | Lit s => Ret (buffer_of s) w
    | Ref l => match heap w !! l with Some buf => Ret buf w | None => Fault end
    end.

(** [p[i] = c]. *)
Definition store (p : cptr) (i : nat) (c : ascii) : M unit :=
  fun w =>
    match p with
    | Ref l =>
        match heap w !! l with
        | Some buf =>
            if (i <? length buf)%nat then
              Ret tt (with_heap (<[l := <[i := c]> buf]> (heap w)) (brk w) w)
            else Fault
        | None => Fault
        end
    | _ => Fault
    end.

(** The string a pointer reads as in a world, if it points to one. *)
Definition string_at (w : world) (p : cptr) : option string :=
  match p with
  | NULL => None
  | Lit s => Some s
  | Ref l => string_of <$> heap w !! l
  end.

(* ===================================================================== *)
(** * The functions cvtsudoers.c calls *)
(* ===================================================================== *)

Definition EXIT_SUCCESS : Z := 0.
Definition EXIT_FAILURE : Z := 1.

(** [printf], [puts] and [fprintf(stderr, ...)], with the text they write. *)
Definition print_stdout (text : string) : M unit := emit (Stdout text).
Definition print_stderr (text : string) : M unit := emit (Stderr text).

(** [sudo_warnx]: a warning on the standard error. *)
Definition sudo_warnx (text : string) : M unit := emit (Warnx text).

(** Modelled from the spec: [sudo_fatalx] (lib/util/fatal.c) is not under
    src/.  A fatal configuration error "terminates immediately with a
    descriptive message and failure status". *)
Definition sudo_fatalx {A} (text : string) : M A :=
  emit (Fatalx text) ;; exit EXIT_FAILURE.

(** [initprogname] and [getprogname]. *)
Definition initprogname (s : sys) (name : string) : M unit :=
  fun w => Ret tt (with_progname (sys_progname s name) w).
Definition getprogname : M string := fun w => Ret (progname w) w.

Definition geteuid (s : sys) : Z := sys_euid s.
Definition getuid (s : sys) : Z := sys_uid s.
Definition getenv (s : sys) (name : string) : option string := sys_environ s !! name.
Definition sudo_getpwnam (s : sys) (name : string) : option passwd := sys_getpwnam s name.
Definition sudo_getpwuid (s : sys) (uid : Z) : option passwd := sys_getpwuid s uid.
Definition init_defaults (s : sys) : bool := sys_init_defaults s.

(** Modelled from the spec: [sudo_gethostname] (lib/util/gethostname.c)
    is not under src/.  "Query the OS for the local hostname": the name
    in a buffer of its own, which [get_hostname] may write to, or NULL
    when the query fails. *)
Definition sudo_gethostname (s : sys) : M cptr :=
  match sys_hostname s with
  | Some h => alloc (buffer_of h)
  | None => ret NULL
  end.

(** [strdup(3)]: a copy of the C string at [p], or NULL without memory.
    The string is read up to its terminator; a buffer without one is read
    past its end. *)
Definition strdup (s : sys) (p : cptr) : M cptr :=
  buf ← load p;
  if readable buf NUL then
    if sys_strdup_ok s then alloc (cstr buf ++ [NUL]) else ret NULL
  else fault.

(** [strchr(3)] through a pointer: the string is read up to the first [c]
    or the terminator; a buffer that holds neither is read past its end. *)
Definition strchr_at (p : cptr) (c : ascii) : M (option nat) :=
  buf ← load p;
  if readable buf c then ret (strchr buf c) else fault.

(** Modelled from the spec: getopt_long(3) as [main] calls it.  [opterr]
    is never cleared and the option string does not start with [:], so a
    call that answers [?] has first written a message to the standard
    error. *)
Definition getopt_long (s : sys) (optstring : string) (longopts : list Getopt.option_)
    (g : Getopt.state) : M (Getopt.result * Getopt.state) :=
  let r := Getopt.getopt_long optstring longopts g in
  match fst r with
  | Getopt.Opt ch _ =>
      (if Ascii.eqb ch "?"%char then print_stderr (sys_getopt_message s g)
       else ret tt) ;;
      ret r
  | Getopt.End_ => ret r
  end.

(** Modelled from the spec: [export_sudoers] is declared extern and is
    not under src/.  "export(input_path, output_path) -> bool": called
    with the two paths, it says whether the conversion succeeded.  It is
    the exporter that opens the input file (through [open_sudoers], lines
    176-180, which is [fopen] for reading); [main] never does. *)
Definition export_sudoers (s : sys) (input output : string) : M bool :=
  let ok := sys_export s input output in
  emit (Export input output ok) ;; ret ok.

(** The label [done] of [main]: [main] returns [exitcode], which ends the
    process with that status. *)
Definition goto_done {A} (exitcode : Z) : M A := exit exitcode.

(** [%d] of an [int]. *)
Definition decimal (n : Z) : string := NilZero.string_of_int (Z.to_int n).

(* ===================================================================== *)
(** * cvtsudoers.c *)
(* ===================================================================== *)

Definition short_opts : string := "f:ho:V".

Definition long_opts : list Getopt.option_ :=
  [ {| Getopt.name := "format";  Getopt.has_arg := Getopt.required_argument; Getopt.val := "f"%char |};
    {| Getopt.name := "help";    Getopt.has_arg := Getopt.no_argument;       Getopt.val := "h"%char |};
    {| Getopt.name := "output";  Getopt.has_arg := Getopt.required_argument; Getopt.val := "o"%char |};
    {| Getopt.name := "version"; Getopt.has_arg := Getopt.no_argument;       Getopt.val := "V"%char |} ].

Definition usage_text (name : string) : string :=
  "usage: " +:+ name +:+ " [-hV] [-f format] [-o output_file] [sudoers_file]" +:+ nl.

(** [usage(int fatal)], lines 253-261. *)
Definition usage (fatal : Z) : M unit :=
  name ← getprogname;
  (if (fatal =? 0)%Z then print_stdout (usage_text name)
   else print_stderr (usage_text name)) ;;
  if (fatal =? 0)%Z then ret tt else exit 1.

Definition help_text : string :=
  nl +:+ "Options:" +:+ nl
  +:+ "  -f, --format=JSON        specify output format" +:+ nl
  +:+ "  -h, --help               display help message and exit" +:+ nl
  +:+ "  -o, --output=output_file write sudoers in JSON format to output_file" +:+ nl
  +:+ "  -V, --version            display version information and exit" +:+ nl.

(** [help(void)], lines 263-274. *)
Definition help {A} : M A :=
  name ← getprogname;
  print_stdout (name +:+ " - convert between sudoers file formats" +:+ nl +:+ nl) ;;
  usage 0 ;;
  print_stdout help_text ;;
  exit 0.

(** The stub functions, lines 182-217.  ([get_interfaces], lines 219-225,
    returns the address of an empty list and is not needed here.) *)
Definition init_envtables : M bool := ret true.
Definition user_is_exempt : M bool := ret false.
Definition sudo_setspent : M unit := ret tt.
Definition sudo_endspent : M unit := ret tt.
Definition group_plugin_query (user group : string) (pw : option passwd) : M Z :=
  ret (Z.b2z false).

(** [get_hostname(void)], lines 230-251. *)
Definition get_hostname (s : sys) : M unit :=
  h ← sudo_gethostname s;
  set_user_host h ;;
  match h with
  | NULL =>
      set_user_shost (Lit "localhost") ;;
      set_user_host (Lit "localhost")
  | _ =>
      p ← strchr_at h "."%char;
      match p with
      | Some i =>
          store h i NUL ;;
          d ← strdup s h;
          set_user_shost d ;;
          match d with
          | NULL => sudo_fatalx "get_hostname: unable to allocate memory"
          | _ => ret tt
          end ;;
          store h i "."%char
      | None =>
          set_user_shost h
      end
  end ;;
  u ← get_sudo_user;
  set_user_runhost (host u) ;;
  u ← get_sudo_user;
  set_user_srunhost (shost u).

(** ** [main], lines 76-174 *)

(** One turn of the [switch] in the option loop, lines 115-138: the new
    values of [output_file] and [output_format]. *)
Definition arg_case (s : sys) (ch : ascii) (optarg : option string)
    (output_file output_format : string) : M (string * string) :=
  if Ascii.eqb ch "f"%char then
    match optarg with
    | Some arg =>
        (if negb (strcasecmp arg "json" =? 0)%Z then
           sudo_warnx ("unsupported output format " +:+ arg) ;;
           usage 1
         else ret tt) ;;
        ret (output_file, arg)
    | None => fault
    end
  else if Ascii.eqb ch "h"%char then
    help
  else if Ascii.eqb ch "o"%char then
    match optarg with
    | Some arg => ret (arg, output_format)
    | None => fault
    end
  else if Ascii.eqb ch "V"%char then
    name ← getprogname;
    print_stdout (name +:+ " version " +:+ PACKAGE_VERSION s +:+ nl) ;;
    print_stdout (name +:+ " grammar version "
                  +:+ decimal (SUDOERS_GRAMMAR_VERSION s) +:+ nl) ;;
    goto_done EXIT_SUCCESS
  else
    usage 1 ;;
    ret (output_file, output_format).

(** The option loop, lines 114-139.  [fuel] bounds the number of calls of
    getopt_long; [main] passes more than any argument vector needs. *)
Fixpoint arg_loop (s : sys) (fuel : nat) (g : Getopt.state)
    (output_file output_format : string) : M (Getopt.state * string * string) :=
  match fuel with
  | O => out_of_fuel
  | S fuel' =>
      r ← getopt_long s short_opts long_opts g;
      match r with
      | (Getopt.End_, g') => ret (g', output_file, output_format)
      | (Getopt.Opt ch optarg, g') =>
          '(output_file', output_format') ←
             arg_case s ch optarg output_file output_format;
          arg_loop s fuel' g' output_file' output_format'
      end
  end.

(** Lines 91-109: program name, locale, sudo.conf, debug subsystem. *)
Definition main_startup (s : sys) (exitcode : Z) : M unit :=
  initprogname s (match sys_argv s with a :: _ => a | [] => "cvtsudoers" end) ;;
  (if negb (sys_initlocale s) then sudo_fatalx "main: unable to allocate memory"
   else ret tt) ;;
  (if (sys_conf_read s =? -1)%Z then goto_done exitcode else ret tt) ;;
  (if negb (sys_debug_register s) then goto_done exitcode else ret tt).

(** Lines 111-149: the options, then the input file; the values of
    [input_file], [output_file] and [output_format] that result. *)
Definition main_args (s : sys) (input_file output_file output_format : string)
    : M (string * string * string) :=
  let g0 := Getopt.start (sys_argv s) in
  '(g, output_file, output_format) ←
     arg_loop s (S (Getopt.budget g0)) g0 output_file output_format;
  let argv := Getopt.operands g in
  let argc := Z.of_nat (length argv) in
  input_file ←
    (if (0 <? argc)%Z then
       (if (1 <? argc)%Z then usage 1 else ret tt) ;;
       match argv with
       | a :: _ => ret a
       | [] => fault
       end
     else ret input_file);
  ret (input_file, output_file, output_format).

(** Lines 151-162: the [sudo_user] the parser is run for. *)
Definition main_sudo_user (s : sys) : M unit :=
  set_user_base (Lit "") ;;
  set_user_cmnd (Lit "") ;;
  (if (geteuid s =? 0)%Z then
     match getenv s "SUDO_USER" with
     | Some user =>
         if negb (String.eqb user "") then set_pw (sudo_getpwnam s user)
         else ret tt
     | None => ret tt
     end
   else ret tt) ;;
  u ← get_sudo_user;
  match pw u with
  | None =>
      set_pw (sudo_getpwuid s (getuid s)) ;;
      u ← get_sudo_user;
      match pw u with
      | None => sudo_fatalx "you do not exist in the passwd database"
      | Some _ => ret tt
      end
  | Some _ => ret tt
  end.

(** Lines 165-173: the defaults, the exporter, the exit code. *)
Definition main_export (s : sys) (input_file output_file : string) : M Z :=
  (if negb (init_defaults s) then
     sudo_fatalx "unable to initialize sudoers default values"
   else ret tt) ;;
  ok ← export_sudoers s input_file output_file;
  goto_done (if ok then EXIT_SUCCESS else EXIT_FAILURE).

Definition main (s : sys) : M Z :=
  let exitcode := EXIT_FAILURE in
  let input_file := "-" in
  let output_file := "-" in
  let output_format := "JSON" in
  main_startup s exitcode ;;
  '(input_file, output_file, output_format) ←
     main_args s input_file output_file output_format;
  main_sudo_user s ;;
  get_hostname s ;;
  main_export s input_file output_file.

(** A run of the program: [main] in the initial state of the process. *)
Definition run (s : sys) : outcome Z := main s world0.

(** The exit status of a run that ended. *)
Definition exit_status {A} (r : outcome A) : option Z :=
  match r with
  | Exit c _ => Some c
  | _ => None
  end.

(** The state a run ended in. *)
Definition final_world {A} (r : outcome A) : option world :=
  match r with
  | Exit _ w => Some w
  | Ret _ w => Some w
  | _ => None
  end.

(* ===================================================================== *)
(** * The words of the specification *)
(* ===================================================================== *)

(** ** Identity Resolver (spec 4.2) *)

(** "the process's effective user id indicates elevated privilege" *)
Definition elevated (s : sys) : bool := (sys_euid s =? 0)%Z.

(** "an environment-provided acting user name is present and non-empty" *)
Definition acting_user (s : sys) : option string :=
  match sys_environ s !! "SUDO_USER" with
  | Some u => if String.eqb u "" then None else Some u
  | None => None
  end.

(** "attempt to resolve that name to a record; otherwise (or if that lookup
    fails) resolve the record for the process's real user id"; [None] when
    neither lookup succeeds. *)
Definition spec_identity (s : sys) : option passwd :=
  let by_name :=
    if elevated s then
      match acting_user s with
      | Some u => sys_getpwnam s u
      | None => None
      end
    else None in
  match by_name with
  | Some r => Some r
  | None => sys_getpwuid s (sys_uid s)
  end.

(** The [sudo_user] that identity resolution leaves: the record, and the
    empty command name. *)
Definition with_identity (p : option passwd) (w : world) : world :=
  with_sudo_user (upd_pw p (upd_cmnd (Lit "") (upd_base (Lit "") (sudo_user w)))) w.

(** The same surroundings with another value of SUDO_USER, or none. *)
Definition with_SUDO_USER (v : option string) (s : sys) : sys :=
  {| sys_argv := sys_argv s;
     sys_environ :=
       match v with
       | Some x => <["SUDO_USER" := x]> (sys_environ s)
       | None => delete "SUDO_USER" (sys_environ s)
       end;
     sys_euid := sys_euid s; sys_uid := sys_uid s;
     sys_getpwnam := sys_getpwnam s; sys_getpwuid := sys_getpwuid s;
     sys_hostname := sys_hostname s; sys_strdup_ok := sys_strdup_ok s;
     sys_getopt_message := sys_getopt_message s;
     sys_initlocale := sys_initlocale s; sys_conf_read := sys_conf_read s;
     sys_debug_register := sys_debug_register s;
     sys_init_defaults := sys_init_defaults s; sys_export := sys_export s;
     sys_progname := sys_progname s; PACKAGE_VERSION := PACKAGE_VERSION s;
     SUDOERS_GRAMMAR_VERSION := SUDOERS_GRAMMAR_VERSION s |}.

(** ** Hostname Resolver (spec 4.3) *)

(** "split at the first [.]; the prefix becomes the short host" *)
Fixpoint short_of (h : string) : string :=
  match h with
  | EmptyString => EmptyString
  | String c r => if Ascii.eqb c "."%char then EmptyString else String c (short_of r)
  end.

Fixpoint occurs (c : ascii) (h : string) : bool :=
  match h with
  | EmptyString => false
  | String x r => Ascii.eqb x c || occurs c r
  end.

(** A host name the system can hand out as a C string holds no NUL. *)
Definition nul_free (h : string) : Prop := occurs NUL h = false.

(** "contains no [.] character" *)
Definition dotless (h : string) : Prop := occurs "."%char h = false.

(** The four members of HostInfo set to the pointers [full] and [short]. *)
Definition with_hosts (full short : cptr) (w : world) : world :=
  with_sudo_user
    (upd_srunhost short (upd_runhost full (upd_shost short (upd_host full (sudo_user w))))) w.

(** ** CLI Argument Parser (spec 4.1) *)

Fixpoint lower (v : string) : string :=
  match v with
  | EmptyString => EmptyString
  | String c r => String (tolower c) (lower r)
  end.

(** "a case-insensitive match for [json]" *)
Definition ci_match (v pattern : string) : bool := String.eqb (lower v) (lower pattern).

(** The options successive calls of getopt_long hand to the loop from the
    state [g] until it returns -1, and the operands then left. *)
Inductive options_of : Getopt.state -> list (ascii * option string) -> list string -> Prop :=
| options_end g g' :
    Getopt.getopt_long short_opts long_opts g = (Getopt.End_, g') ->
    options_of g [] (Getopt.operands g')
| options_opt g g' ch optarg opts ops :
    Getopt.getopt_long short_opts long_opts g = (Getopt.Opt ch optarg, g') ->
    options_of g' opts ops ->
    options_of g ((ch, optarg) :: opts) ops.

(** An option the loop takes and goes on: [-o] with its value, [-f] with a
    value that matches [json]. *)
Definition accepted (o : ascii * option string) : bool :=
  match o with
  | (ch, Some v) =>
      Ascii.eqb ch "o"%char || (Ascii.eqb ch "f"%char && ci_match v "json")
  | (_, None) => false
  end.

(** An option that ends the run with status 0: [-h] or [-V]. *)
Definition informational (o : ascii * option string) : bool :=
  Ascii.eqb (fst o) "h"%char || Ascii.eqb (fst o) "V"%char.

(** The output path and format after the accepted options [opts]. *)
Fixpoint final_output (opts : list (ascii * option string)) (output_file : string) : string :=
  match opts with
  | [] => output_file
  | (ch, Some v) :: more =>
      final_output more (if Ascii.eqb ch "o"%char then v else output_file)
  | (_, None) :: more => final_output more output_file
  end.

Fixpoint final_format (opts : list (ascii * option string)) (output_format : string) : string :=
  match opts with
  | [] => output_format
  | (ch, Some v) :: more =>
      final_format more (if Ascii.eqb ch "f"%char then v else output_format)
  | (_, None) :: more => final_format more output_format
  end.

(** Lines 91-109 went through: locale, sudo.conf and debug registration. *)
Definition startup_ok (s : sys) : Prop :=
  sys_initlocale s = true /\ sys_conf_read s <> (-1)%Z /\ sys_debug_register s = true.

(** ** Endings of a run (spec 4.5, 6 and 7) *)

Definition is_export (e : event) : bool :=
  match e with
  | Export _ _ _ => true
  | _ => false
  end.

(** "the exporter is never invoked" *)
Definition never_exported (t : list event) : Prop := existsb is_export t = false.

(** How a run ended, told from the last thing it did: help or version
    text written, usage written to the standard error, a fatal message,
    the exporter's answer, or nothing at all (sudo.conf or the debug
    subsystem failed). *)
Inductive ending :=
| InfoExit
| UsageErrorExit
| FatalExit
| SuccessExit
| FailureExit
| SetupExit.

Definition ending_of (t : list event) : ending :=
  match last t with
  | Some (Stdout _) => InfoExit
  | Some (Stderr _) => UsageErrorExit
  | Some (Fatalx _) => FatalExit
  | Some (Export _ _ true) => SuccessExit
  | Some (Export _ _ false) => FailureExit
  | Some (Warnx _) | None => SetupExit
  end.

(** "Exit codes: 0 success; 1 usage error, fatal configuration error, or
    conversion failure." *)
Definition status_of (e : ending) : Z :=
  match e with
  | InfoExit | SuccessExit => 0
  | UsageErrorExit | FatalExit | FailureExit | SetupExit => 1
  end.

(** Why a run ends (spec 2, 4 and 7): on help or version; on a usage
    error; because sudo.conf or the debug subsystem could not be set up;
    on one of the fatal configuration errors, memory allocation failing
    during setup, no identity, or the defaults not initialised; or with
    the answer of the exporter. *)
Inductive cause :=
| Help_or_version
| Usage_error
| Setup_failure
| Allocation_failure
| Unresolvable_identity
| Defaults_failure
| Conversion (ok : bool).

(** The terminal state of the specification's state machine for a cause. *)
Definition ending_for (c : cause) : ending :=
  match c with
  | Help_or_version => InfoExit
  | Usage_error => UsageErrorExit
  | Setup_failure => SetupExit
  | Allocation_failure | Unresolvable_identity | Defaults_failure => FatalExit
  | Conversion true => SuccessExit
  | Conversion false => FailureExit
  end.

(** "Positional argument: input file path; absent means standard input." *)
Definition input_of (ops : list string) : string :=
  match ops with
  | [] => "-"
  | x :: _ => x
  end.

(** The short host needs a copy of its own, and there is no memory for it. *)
Definition copy_fails (s : sys) : bool :=
  match sys_hostname s with
  | Some h => occurs "."%char h && negb (sys_strdup_ok s)
  | None => false
  end.

(** The pipeline of the specification, "Argument Parser, then
    Identity/Hostname/Defaults resolution, then Exporter Invoker", each
    stage able to end the run early, after the setup of locale, sudo.conf
    and debug subsystem: the cause it ends on, for the options [opts] and
    the operands [ops] of the argument vector.  Options are taken in
    order, so the first one that is not accepted decides: help or version,
    or else a usage error ("unsupported format string", "unrecognized
    option"); "more than one positional argument" is a usage error too. *)
Definition cause_of (s : sys) (opts : list (ascii * option string)) (ops : list string)
    : cause :=
  if negb (sys_initlocale s) then Allocation_failure
  else if (sys_conf_read s =? -1)%Z || negb (sys_debug_register s) then Setup_failure
  else
    match List.find (fun x => negb (accepted x)) opts with
    | Some x => if informational x then Help_or_version else Usage_error
    | None =>
        if (2 <=? length ops)%nat then Usage_error
        else
          match spec_identity s with
          | None => Unresolvable_identity
          | Some _ =>
              if copy_fails s then Allocation_failure
              else if negb (sys_init_defaults s) then Defaults_failure
              else Conversion (sys_export s (input_of ops) (final_output opts "-"))
          end
    end.

(** The strings the system hands to the program are C strings: the host
    name and the option arguments hold no NUL. *)
Definition c_strings (s : sys) (opts : list (ascii * option string)) : Prop :=
  (forall h, sys_hostname s = Some h -> nul_free h)
  /\ Forall (fun x => forall v, snd x = Some v -> nul_free v) opts.

(** ** Stages of a run *)

(** The state once lines 91-109 went through: only the program name is set. *)
Definition started (s : sys) : world :=
  with_progname
    (sys_progname s (match sys_argv s with a :: _ => a | [] => "cvtsudoers" end)) world0.

(** Nothing but the trace differs. *)
Definition same_state (w w' : world) : Prop :=
  heap w' = heap w /\ brk w' = brk w /\ sudo_user w' = sudo_user w
  /\ progname w' = progname w.

(** The computation ended with status 1, the usage message on the standard
    error the last thing written, the exporter not called. *)
Definition usage_error_exit {A} (w : world) (r : outcome A) : Prop :=
  exists w' evs,
    r = Exit 1 w' /\ same_state w w' /\ trace w' = trace w ++ evs
    /\ never_exported evs /\ last evs = Some (Stderr (usage_text (progname w))).

(** The computation ended with status 0 after writing help or version
    text, the exporter not called. *)
Definition info_exit {A} (w : world) (r : outcome A) : Prop :=
  exists w' evs,
    r = Exit 0 w' /\ same_state w w' /\ trace w' = trace w ++ evs
    /\ never_exported evs /\ ending_of evs = InfoExit.

(** What a run that ends on the cause [c] lets see (spec 7): the call of
    the exporter and nothing else; the "descriptive message" of a fatal
    configuration error and nothing else; "usage text" last on the
    standard error; and but for a conversion, "the exporter is never
    invoked". *)
Definition trace_for (s : sys) (opts : list (ascii * option string)) (ops : list string)
    (c : cause) (t : list event) : Prop :=
  match c with
  | Conversion ok =>
      ok = sys_export s (input_of ops) (final_output opts "-")
      /\ t = [Export (input_of ops) (final_output opts "-") ok]
  | Unresolvable_identity => t = [Fatalx "you do not exist in the passwd database"]
  | Defaults_failure => t = [Fatalx "unable to initialize sudoers default values"]
  | Allocation_failure =>
      t = [Fatalx "main: unable to allocate memory"]
      \/ t = [Fatalx "get_hostname: unable to allocate memory"]
  | Setup_failure => t = []
  | Usage_error =>
      never_exported t /\ last t = Some (Stderr (usage_text (progname (started s))))
  | Help_or_version => never_exported t
  end.

(** ** The scanner *)

(** What is left of a list of arguments to scan. *)
Definition weight (args : list string) : nat :=
  fold_right (fun a n => S (String.length a + n)) 0%nat args.

(** [-f] and [-o] always come with their argument. *)
Definition with_optarg (ch : ascii) (a : option string) : Prop :=
  Ascii.eqb ch "f"%char || Ascii.eqb ch "o"%char = true -> exists v, a = Some v.

(* ===================================================================== *)
(** * Scenarios *)
(* ===================================================================== *)

Definition alice : passwd :=
  {| pw_name := "alice"; pw_uid := 1000; pw_gid := 1000; pw_gecos := "Alice";
     pw_dir := "/home/alice"; pw_shell := "/bin/sh" |}.

Definition root : passwd :=
  {| pw_name := "root"; pw_uid := 0; pw_gid := 0; pw_gecos := "Charlie Root";
     pw_dir := "/root"; pw_shell := "/bin/sh" |}.

(** A passwd database with [root] and [alice]. *)
Definition passwd_by_name (n : string) : option passwd :=
  if String.eqb n "root" then Some root
  else if String.eqb n "alice" then Some alice
  else None.

Definition passwd_by_uid (u : Z) : option passwd :=
  if (u =? 0)%Z then Some root
  else if (u =? 1000)%Z then Some alice
  else None.

(** A C library whose getopt_long has one message for all it refuses. *)
Definition getopt_says (g : Getopt.state) : string :=
  "cvtsudoers: invalid option" +:+ nl.

(** [cvtsudoers args] run by [alice] on the host [hostname], everything
    else in order, the exporter answering [ok]. *)
Definition scenario (args : list string) (hostname : option string) (ok : bool) : sys :=
  {| sys_argv := "cvtsudoers" :: args;
     sys_environ := ∅;
     sys_euid := 1000; sys_uid := 1000;
     sys_getpwnam := passwd_by_name; sys_getpwuid := passwd_by_uid;
     sys_hostname := hostname; sys_strdup_ok := true;
     sys_getopt_message := getopt_says;
     sys_initlocale := true; sys_conf_read := 0;
     sys_debug_register := true; sys_init_defaults := true;
     sys_export := fun _ _ => ok;
     sys_progname := fun n => n;
     PACKAGE_VERSION := "1.8.23"; SUDOERS_GRAMMAR_VERSION := 46 |}.

(** The same with no memory left for [strdup]. *)
Definition scenario_no_memory (args : list string) (hostname : option string) : sys :=
  {| sys_argv := "cvtsudoers" :: args;
     sys_environ := ∅;
     sys_euid := 1000; sys_uid := 1000;
     sys_getpwnam := passwd_by_name; sys_getpwuid := passwd_by_uid;
     sys_hostname := hostname; sys_strdup_ok := false;
     sys_getopt_message := getopt_says;
     sys_initlocale := true; sys_conf_read := 0;
     sys_debug_register := true; sys_init_defaults := true;
     sys_export := fun _ _ => true;
     sys_progname := fun n => n;
     PACKAGE_VERSION := "1.8.23"; SUDOERS_GRAMMAR_VERSION := 46 |}.

(** [cvtsudoers args] run by a user (uid 4242) who has no passwd record. *)
Definition scenario_no_passwd (args : list string) : sys :=
  {| sys_argv := "cvtsudoers" :: args;
     sys_environ := ∅;
     sys_euid := 4242; sys_uid := 4242;
     sys_getpwnam := passwd_by_name; sys_getpwuid := passwd_by_uid;
     sys_hostname := Some "foo.example.com"; sys_strdup_ok := true;
     sys_getopt_message := getopt_says;
     sys_initlocale := true; sys_conf_read := 0;
     sys_debug_register := true; sys_init_defaults := true;
     sys_export := fun _ _ => true;
     sys_progname := fun n => n;
     PACKAGE_VERSION := "1.8.23"; SUDOERS_GRAMMAR_VERSION := 46 |}.

(** [cvtsudoers args] run by root through sudo, SUDO_USER being [user]. *)
Definition scenario_sudo (args : list string) (user : string) : sys :=
  {| sys_argv := "cvtsudoers" :: args;
     sys_environ := {[ "SUDO_USER" := user ]};
     sys_euid := 0; sys_uid := 0;
     sys_getpwnam := passwd_by_name; sys_getpwuid := passwd_by_uid;
     sys_hostname := Some "foo.example.com"; sys_strdup_ok := true;
     sys_getopt_message := getopt_says;
     sys_initlocale := true; sys_conf_read := 0;
     sys_debug_register := true; sys_init_defaults := true;
     sys_export := fun _ _ => true;
     sys_progname := fun n => n;
     PACKAGE_VERSION := "1.8.23"; SUDOERS_GRAMMAR_VERSION := 46 |}.

(** [cvtsudoers args] when sudo.conf cannot be read. *)
Definition scenario_unreadable_conf (args : list string) : sys :=
  {| sys_argv := "cvtsudoers" :: args;
     sys_environ := ∅;
     sys_euid := 1000; sys_uid := 1000;
     sys_getpwnam := passwd_by_name; sys_getpwuid := passwd_by_uid;
     sys_hostname := Some "foo.example.com"; sys_strdup_ok := true;
     sys_getopt_message := getopt_says;
     sys_initlocale := true; sys_conf_read := -1;
     sys_debug_register := true; sys_init_defaults := true;
     sys_export := fun _ _ => true;
     sys_progname := fun n => n;
     PACKAGE_VERSION := "1.8.23"; SUDOERS_GRAMMAR_VERSION := 46 |}.

(** [cvtsudoers args] when the defaults cannot be initialised. *)
Definition scenario_no_defaults (args : list string) : sys :=
  {| sys_argv := "cvtsudoers" :: args;
     sys_environ := ∅;
     sys_euid := 1000; sys_uid := 1000;
     sys_getpwnam := passwd_by_name; sys_getpwuid := passwd_by_uid;
     sys_hostname := Some "foo.example.com"; sys_strdup_ok := true;
     sys_getopt_message := getopt_says;
     sys_initlocale := true; sys_conf_read := 0;
     sys_debug_register := true; sys_init_defaults := false;
     sys_export := fun _ _ => true;
     sys_progname := fun n => n;
     PACKAGE_VERSION := "1.8.23"; SUDOERS_GRAMMAR_VERSION := 46 |}.

(* ===================================================================== *)
(** * Further vocabulary *)
(* ===================================================================== *)

(** What [help] writes, lines 266-272, for the program name [name]. *)
Definition help_events (name : string) : list event :=
  [ Stdout (name +:+ " - convert between sudoers file formats" +:+ nl +:+ nl);
    Stdout (usage_text name);
    Stdout help_text ].

(** What [-V] writes, lines 130-133. *)
Definition version_events (s : sys) (name : string) : list event :=
  [ Stdout (name +:+ " version " +:+ PACKAGE_VERSION s +:+ nl);
    Stdout (name +:+ " grammar version " +:+ decimal (SUDOERS_GRAMMAR_VERSION s) +:+ nl) ].

(** The option characters the [switch] of lines 115-138 has a case for. *)
Definition known_option (ch : ascii) : bool :=
  Ascii.eqb ch "f"%char || Ascii.eqb ch "h"%char
  || Ascii.eqb ch "o"%char || Ascii.eqb ch "V"%char.

(** The messages [sudo_fatalx] is called with in cvtsudoers.c. *)
Definition fatal_messages : list string :=
  [ "main: unable to allocate memory";
    "you do not exist in the passwd database";
    "get_hostname: unable to allocate memory";
    "unable to initialize sudoers default values" ].

(** What the option loop may write before it ends the run, for the
    program name [name]: the help text, the version lines, or the usage
    line on the standard error, alone, after the warning about the format,
    or after the message of getopt_long about what it refused. *)
Definition option_exit_events (s : sys) (name : string) (evs : list event) : Prop :=
  evs = help_events name
  \/ evs = version_events s name
  \/ evs = [Stderr (usage_text name)]
  \/ (exists v, evs = [Warnx ("unsupported output format " +:+ v); Stderr (usage_text name)])
  \/ exists g, evs = [Stderr (sys_getopt_message s g); Stderr (usage_text name)].

(** The traces a whole run may leave. *)
Definition run_trace (s : sys) (t : list event) : Prop :=
  t = []
  \/ (exists m, In m fatal_messages /\ t = [Fatalx m])
  \/ option_exit_events s (progname (started s)) t
  \/ exists i o, t = [Export i o (sys_export s i o)].

(** The same surroundings with another argument vector. *)
Definition with_argv (argv : list string) (s : sys) : sys :=
  {| sys_argv := argv;
     sys_environ := sys_environ s;
     sys_euid := sys_euid s; sys_uid := sys_uid s;
     sys_getpwnam := sys_getpwnam s; sys_getpwuid := sys_getpwuid s;
     sys_hostname := sys_hostname s; sys_strdup_ok := sys_strdup_ok s;
     sys_getopt_message := sys_getopt_message s;
     sys_initlocale := sys_initlocale s; sys_conf_read := sys_conf_read s;
     sys_debug_register := sys_debug_register s;
     sys_init_defaults := sys_init_defaults s; sys_export := sys_export s;
     sys_progname := sys_progname s; PACKAGE_VERSION := PACKAGE_VERSION s;
     SUDOERS_GRAMMAR_VERSION := SUDOERS_GRAMMAR_VERSION s |}.

(** The host name can be resolved without ending the run: the lookup
    fails, or the name has no [.], or there is memory for the copy. *)
Definition hostname_resolvable (s : sys) : Prop :=
  sys_hostname s = None
  \/ (exists h, sys_hostname s = Some h /\ dotless h)
  \/ sys_strdup_ok s = true.

(* ===================================================================== *)
(** * Proof automation *)
(* ===================================================================== *)

(** Unfolding the monadic operations of a straight-line block. *)
Ltac run_block :=
  cbv [bind ret exit fault emit sudo_fatalx goto_done
       get_sudo_user put_sudo_user set_pw set_user_host set_user_shost
       set_user_runhost set_user_srunhost set_user_cmnd set_user_base
       print_stdout print_stderr sudo_warnx getprogname initprogname].

(** The same, with the operations on memory and the state updates. *)
Ltac run_mem :=
  cbv [bind ret exit fault emit sudo_fatalx goto_done
       get_sudo_user put_sudo_user set_pw set_user_host set_user_shost
       set_user_runhost set_user_srunhost set_user_cmnd set_user_base
       print_stdout print_stderr sudo_warnx getprogname initprogname
       alloc load store strdup strchr_at sudo_gethostname
       with_heap with_sudo_user with_trace with_progname log with_hosts
       heap brk sudo_user progname trace].

(* ===================================================================== *)
(** * Properties *)
(* ===================================================================== *)

(** ** Sequencing *)

Lemma bind_ret_eq {A B} (m : M A) (k : A -> M B) w a w' :
  m w = Ret a w' -> bind m k w = k a w'.
Proof. unfold bind. by intros ->. Qed.

Lemma bind_exit_eq {A B} (m : M A) (k : A -> M B) w c w' :
  m w = Exit c w' -> bind m k w = Exit c w'.
Proof. unfold bind. by intros ->. Qed.

(** ** The stub functions *)

(** C10: the stub capability functions are constant and leave the state
    alone: in every state [user_is_exempt] returns false,
    [group_plugin_query] returns false (the int 0) for every user, group
    and passwd record, and [init_envtables] returns true. *)
Theorem stubs_are_constant :
  (forall w, user_is_exempt w = Ret false w)
  /\ (forall user group p w, group_plugin_query user group p w = Ret 0%Z w)
  /\ (forall w, init_envtables w = Ret true w).
Proof. repeat split. Qed.

(** ** Identity resolution *)

(** Lines 151-162 from a state in which [sudo_user.pw] is null. *)
Lemma identity_resolution_lines (s : sys) (w : world) :
  pw (sudo_user w) = None ->
  main_sudo_user s w =
    match spec_identity s with
    | Some p => Ret tt (with_identity (Some p) w)
    | None =>
        Exit 1 (log (Fatalx "you do not exist in the passwd database")
                    (with_identity None w))
    end.
Proof.
  intros Hpw. destruct w as [hp b u pn tr]. destruct u as [p0 h sh rh srh c cb].
  simpl in Hpw. subst p0.
  unfold main_sudo_user, spec_identity, elevated, acting_user,
    geteuid, getenv, getuid, sudo_getpwnam, sudo_getpwuid.
  destruct (sys_euid s =? 0)%Z.
  - destruct (sys_environ s !! "SUDO_USER") as [user|].
    + destruct (String.eqb user "").
      * run_block. simpl. destruct (sys_getpwuid s (sys_uid s)); reflexivity.
      * run_block. simpl. destruct (sys_getpwnam s user); simpl.
        -- reflexivity.
        -- destruct (sys_getpwuid s (sys_uid s)); reflexivity.
    + run_block. simpl. destruct (sys_getpwuid s (sys_uid s)); reflexivity.
  - run_block. simpl. destruct (sys_getpwuid s (sys_uid s)); reflexivity.
Qed.

(** C1: identity resolution follows the algorithm of the specification.
    From a state in which [sudo_user.pw] is still null, lines 151-162
    leave the record [spec_identity] names (the one of SUDO_USER when euid
    is 0 and the variable is set, non-empty and known, else the one of the
    real uid); when there is none they end the process with a fatal
    message and status 1. *)
Theorem identity_resolution_algorithm (s : sys) (w : world) :
  pw (sudo_user w) = None ->
  main_sudo_user s w =
    match spec_identity s with
    | Some p => Ret tt (with_identity (Some p) w)
    | None =>
        Exit 1 (log (Fatalx "you do not exist in the passwd database")
                    (with_identity None w))
    end.
Proof. exact (identity_resolution_lines s w). Qed.

Lemma identity_resolution_algorithm_witness :
  pw (sudo_user world0) = None
  /\ main_sudo_user (scenario_sudo [] "alice") world0
     = Ret tt (with_identity (Some alice) world0).
Proof.
  split; [reflexivity|].
  exact (identity_resolution_algorithm (scenario_sudo [] "alice") world0 eq_refl).
Defined.

(** ** C strings *)

Lemma strchr_bound buf c i : strchr buf c = Some i -> (i < length buf)%nat.
Proof.
  revert i. induction buf as [|x r IH]; intros i; simpl; [discriminate|].
  destruct (Ascii.eqb x c).
  - intros [= <-]. lia.
  - destruct (Ascii.eqb x NUL); [discriminate|].
    destruct (strchr r c) as [j|]; simpl; [|discriminate].
    intros [= <-]. specialize (IH j eq_refl). lia.
Qed.

(** What [strchr] found is there, and nothing before it ends the string. *)
Lemma strchr_lookup buf c i : strchr buf c = Some i -> buf !! i = Some c.
Proof.
  revert i. induction buf as [|x r IH]; intros i; simpl; [discriminate|].
  destruct (Ascii.eqb x c) eqn:E.
  - intros [= <-]. apply Ascii.eqb_eq in E. by subst.
  - destruct (Ascii.eqb x NUL); [discriminate|].
    destruct (strchr r c) as [j|]; simpl; [|discriminate].
    intros [= <-]. simpl. by apply IH.
Qed.

(** Writing back the byte that was there restores the buffer. *)
Lemma poke_restore (buf : list ascii) i c x :
  buf !! i = Some c -> <[i := c]> (<[i := x]> buf) = buf.
Proof.
  intros H. rewrite list_insert_insert_eq. by apply list_insert_id.
Qed.

Lemma string_of_list_ascii_short_of h i :
  strchr (buffer_of h) "."%char = Some i ->
  string_of (<[i := NUL]> (buffer_of h)) = short_of h.
Proof.
  unfold string_of, buffer_of. revert i.
  induction h as [|x r IH]; intros i; simpl.
  - discriminate.
  - destruct (Ascii.eqb x "."%char) eqn:E.
    + intros [= <-]. reflexivity.
    + destruct (Ascii.eqb x NUL) eqn:E0; [discriminate|].
      destruct (strchr (String.list_ascii_of_string r ++ [NUL]) "."%char) as [j|] eqn:Ej;
        simpl; [|discriminate].
      intros [= <-]. simpl. rewrite E0. simpl. f_equal. by apply IH.
Qed.

Lemma cstr_idemp buf : cstr (cstr buf ++ [NUL]) = cstr buf.
Proof.
  induction buf as [|x r IH]; simpl; [reflexivity|].
  destruct (Ascii.eqb x NUL) eqn:E; simpl; [reflexivity|].
  rewrite E. by f_equal.
Qed.

Lemma string_of_strdup buf : string_of (cstr buf ++ [NUL]) = string_of buf.
Proof. unfold string_of. by rewrite cstr_idemp. Qed.

Lemma occurs_false_cons c x r :
  occurs c (String x r) = false -> Ascii.eqb x c = false /\ occurs c r = false.
Proof. simpl. intros H. by apply orb_false_elim in H. Qed.

(** A NUL-free string is read back from its buffer as it is. *)
Lemma string_of_buffer_of h : nul_free h -> string_of (buffer_of h) = h.
Proof.
  unfold nul_free, string_of, buffer_of.
  induction h as [|x r IH]; intros H; simpl.
  - reflexivity.
  - apply occurs_false_cons in H as [Hx Hr]. rewrite Hx. simpl. f_equal. by apply IH.
Qed.

Lemma strchr_dotless h : dotless h -> strchr (buffer_of h) "."%char = None.
Proof.
  unfold dotless, buffer_of.
  induction h as [|x r IH]; intros H; simpl.
  - reflexivity.
  - apply occurs_false_cons in H as [Hx Hr]. rewrite Hx.
    destruct (Ascii.eqb x NUL); [reflexivity|]. by rewrite IH.
Qed.

Lemma strchr_none_dotless h :
  nul_free h -> strchr (buffer_of h) "."%char = None -> dotless h.
Proof.
  unfold nul_free, dotless, buffer_of.
  induction h as [|x r IH]; intros Hn H; simpl in *.
  - reflexivity.
  - apply orb_false_elim in Hn as [Hx Hr].
    destruct (Ascii.eqb x "."%char); [discriminate|]. rewrite Hx in H.
    destruct (strchr (String.list_ascii_of_string r ++ [NUL]) "."%char) eqn:E;
      [discriminate|]. simpl. by apply IH.
Qed.

(** A buffer that ends in the terminator is never read past its end. *)
Lemma readable_buffer_of h c : readable (buffer_of h) c = true.
Proof.
  unfold buffer_of. induction h as [|x r IH]; simpl.
  - by rewrite orb_true_r.
  - by rewrite IH, orb_true_r.
Qed.

(** Nor is one that had a terminator written into it. *)
Lemma readable_poke buf i :
  (i < length buf)%nat -> readable (<[i := NUL]> buf) NUL = true.
Proof.
  revert i. induction buf as [|x r IH]; intros i Hi; simpl in Hi; [lia|].
  destruct i as [|i]; simpl.
  - reflexivity.
  - rewrite IH by lia. by rewrite orb_true_r.
Qed.

Lemma short_of_dotless h : dotless h -> short_of h = h.
Proof.
  unfold dotless. induction h as [|x r IH]; intros H; simpl.
  - reflexivity.
  - apply occurs_false_cons in H as [Hx Hr]. rewrite Hx. f_equal. by apply IH.
Qed.

(** ** Hostname resolution *)

(** The lookup failed: the literal, no allocation, no message. *)
Lemma get_hostname_failed s w :
  sys_hostname s = None ->
  get_hostname s w = Ret tt (with_hosts (Lit "localhost") (Lit "localhost") w).
Proof.
  intros Hh. destruct w as [hp b u pn tr]. destruct u as [p0 ho sh rh srh c cb].
  unfold get_hostname. run_mem. rewrite Hh. reflexivity.
Qed.

(** No [.] in the name: one buffer, pointed to by all four members. *)
Lemma get_hostname_undotted s w h :
  sys_hostname s = Some h ->
  strchr (buffer_of h) "."%char = None ->
  get_hostname s w =
    Ret tt (with_hosts (Ref (brk w)) (Ref (brk w))
              (with_heap (<[brk w := buffer_of h]> (heap w)) (S (brk w)) w)).
Proof.
  intros Hh Hi. destruct w as [hp b u pn tr]. destruct u as [p0 ho sh rh srh c cb].
  unfold get_hostname. run_mem. rewrite Hh. run_mem.
  rewrite lookup_insert_eq. run_mem. rewrite readable_buffer_of. run_mem.
  rewrite Hi. reflexivity.
Qed.

(** A [.] at offset [i]: the prefix is copied, or the run ends when there
    is no memory for the copy (the name is then still cut at [i]). *)
Lemma get_hostname_dotted s w h i :
  sys_hostname s = Some h ->
  strchr (buffer_of h) "."%char = Some i ->
  get_hostname s w =
    if sys_strdup_ok s then
      Ret tt (with_hosts (Ref (brk w)) (Ref (S (brk w)))
               (with_heap (<[S (brk w) := cstr (<[i := NUL]> (buffer_of h)) ++ [NUL]]>
                             (<[brk w := buffer_of h]> (heap w)))
                          (S (S (brk w))) w))
    else
      Exit 1 (log (Fatalx "get_hostname: unable to allocate memory")
                (with_sudo_user (upd_shost NULL (upd_host (Ref (brk w)) (sudo_user w)))
                   (with_heap (<[brk w := <[i := NUL]> (buffer_of h)]> (heap w))
                              (S (brk w)) w))).
Proof.
  intros Hh Hi. destruct w as [hp b u pn tr]. destruct u as [p0 ho sh rh srh c cb].
  pose proof (strchr_bound _ _ _ Hi) as Hlt.
  pose proof (strchr_lookup _ _ _ Hi) as Hdot.
  pose proof (readable_poke _ _ Hlt) as Hend.
  apply Nat.ltb_lt in Hlt.
  unfold get_hostname. run_mem. rewrite Hh. run_mem.
  rewrite lookup_insert_eq. run_mem. rewrite readable_buffer_of. run_mem.
  rewrite Hi. run_mem.
  rewrite lookup_insert_eq. run_mem. rewrite Hlt. run_mem.
  rewrite lookup_insert_eq. run_mem. rewrite Hend. run_mem.
  destruct (sys_strdup_ok s); run_mem.
  - rewrite lookup_insert_ne by lia. rewrite lookup_insert_eq. run_mem.
    rewrite length_insert, Hlt. run_mem.
    f_equal. f_equal.
    rewrite (poke_restore _ _ _ _ Hdot).
    rewrite insert_insert_eq.
    rewrite (insert_insert_ne _ b (S b)) by lia.
    by rewrite insert_insert_eq.
  - f_equal. f_equal. by rewrite insert_insert_eq.
Qed.

(** [get_hostname] returns without a message, or ends the run because the
    copy of the short name could not be allocated. *)
Lemma get_hostname_cases s w :
  (exists w', get_hostname s w = Ret tt w'
              /\ trace w' = trace w /\ pw (sudo_user w') = pw (sudo_user w))
  \/ (sys_strdup_ok s = false
      /\ exists w', get_hostname s w = Exit 1 w'
                    /\ trace w' = trace w ++ [Fatalx "get_hostname: unable to allocate memory"]).
Proof.
  destruct (sys_hostname s) as [h|] eqn:Hh.
  - destruct (strchr (buffer_of h) "."%char) as [i|] eqn:Hi.
    + rewrite (get_hostname_dotted s w h i Hh Hi).
      destruct (sys_strdup_ok s); [left|right]; eauto.
    + rewrite (get_hostname_undotted s w h Hh Hi). left; eauto.
  - rewrite (get_hostname_failed s w Hh). left; eauto.
Qed.

(** C3, as amended: the resolver returns without a message whenever the
    lookup of the host name fails, the name has no [.], or the copy of the
    short name can be allocated.  When the lookup fails the four host
    members take the literal "localhost", nothing is written or allocated,
    and with the defaults initialised the exporter is called next, its
    answer deciding the exit status. *)
Theorem hostname_lookup_failure_falls_back (s : sys) (w : world) :
  (sys_hostname s = None ->
   get_hostname s w = Ret tt (with_hosts (Lit "localhost") (Lit "localhost") w)
   /\ forall input output,
        sys_init_defaults s = true ->
        (get_hostname s ;; main_export s input output) w =
          Exit (if sys_export s input output then 0 else 1)
               (log (Export input output (sys_export s input output))
                    (with_hosts (Lit "localhost") (Lit "localhost") w)))
  /\ (sys_hostname s = None
      \/ (exists h, sys_hostname s = Some h /\ dotless h)
      \/ sys_strdup_ok s = true ->
      exists w', get_hostname s w = Ret tt w' /\ trace w' = trace w).
Proof.
  split.
  - intros Hh. split; [by apply get_hostname_failed|].
    intros input output Hd.
    unfold bind at 1. rewrite (get_hostname_failed s w Hh).
    unfold main_export, init_defaults, export_sudoers. rewrite Hd.
    run_block. simpl. by destruct (sys_export s input output).
  - intros [Hh|[(h & Hh & Hd)|Hm]].
    + rewrite (get_hostname_failed s w Hh). by eexists.
    + rewrite (get_hostname_undotted s w h Hh (strchr_dotless h Hd)). by eexists.
    + destruct (get_hostname_cases s w) as [(w' & Hr & Ht & _)|(Hm' & _)].
      * by exists w'.
      * congruence.
Qed.

Lemma hostname_lookup_failure_falls_back_witness :
  sys_hostname (scenario [] None true) = None
  /\ get_hostname (scenario [] None true) world0
     = Ret tt (with_hosts (Lit "localhost") (Lit "localhost") world0)
  /\ (get_hostname (scenario [] None true) ;; main_export (scenario [] None true) "-" "-") world0
     = Exit 0 (log (Export "-" "-" true)
                   (with_hosts (Lit "localhost") (Lit "localhost") world0))
  /\ exists w', get_hostname (scenario [] None true) world0 = Ret tt w'
                /\ trace w' = trace world0.
Proof.
  pose proof (hostname_lookup_failure_falls_back (scenario [] None true) world0)
    as [H1 H2].
  split; [reflexivity|]. split; [exact (proj1 (H1 eq_refl))|].
  split; [exact (proj2 (H1 eq_refl) "-" "-" eq_refl)|].
  exact (H2 (or_introl eq_refl)).
Defined.

(** C3, as stated, fails: on a host named foo.example.com with no memory
    for the copy of "foo", the host name is looked up with success, and
    [get_hostname] ends the run with a fatal message and status 1; the
    exporter is not reached. *)
Lemma hostname_resolver_is_fatal_without_memory :
  sys_hostname (scenario_no_memory [] (Some "foo.example.com")) = Some "foo.example.com"
  /\ exit_status (get_hostname (scenario_no_memory [] (Some "foo.example.com")) world0)
     = Some 1%Z
  /\ exit_status (run (scenario_no_memory [] (Some "foo.example.com"))) = Some 1%Z
  /\ (trace <$> final_world (run (scenario_no_memory [] (Some "foo.example.com"))))
     = Some [Fatalx "get_hostname: unable to allocate memory"].
Proof. repeat split; vm_compute; reflexivity. Qed.

(** What C4 says of the state [get_hostname] returns in, for the name [h]. *)
Lemma hostname_split_state (w : world) (h : string) (i : nat) :
  nul_free h ->
  strchr (buffer_of h) "."%char = Some i ->
  let w' :=
    with_hosts (Ref (brk w)) (Ref (S (brk w)))
      (with_heap (<[S (brk w) := cstr (<[i := NUL]> (buffer_of h)) ++ [NUL]]>
                    (<[brk w := buffer_of h]> (heap w)))
                 (S (S (brk w))) w) in
  string_at w' (user_host w') = Some h
  /\ string_at w' (user_shost w') = Some (short_of h).
Proof.
  intros Hn Hi. destruct w as [hp b u pn tr]. destruct u as [p0 ho sh rh srh c cb].
  cbv [string_at user_host user_shost with_hosts with_heap
       with_sudo_user sudo_user heap brk host shost
       upd_host upd_shost upd_runhost upd_srunhost].
  split.
  - rewrite lookup_insert_ne by lia. rewrite lookup_insert_eq. simpl.
    by rewrite string_of_buffer_of.
  - rewrite lookup_insert_eq. simpl.
    by rewrite string_of_strdup, (string_of_list_ascii_short_of h i Hi).
Qed.

(** C4, as amended: when the lookup succeeds and the copy of the prefix
    can be allocated, or the name has no [.] so that none is needed, the
    host name is split at its first [.]: [get_hostname] returns, and then
    [user_shost] reads as the prefix, [user_host] reads as the whole name
    (the byte overwritten for the copy is written back), and the run-host
    members are the same pointers.  The condition is needed: for a name
    with a [.] and no memory for the copy, [get_hostname] ends the run with
    status 1, [user_shost] and the run-host members NULL, and [user_host]
    still cut at the [.]. *)
Theorem hostname_split_at_first_dot (s : sys) (w : world) (h : string) :
  sys_hostname s = Some h ->
  nul_free h ->
  (forall w',
      get_hostname s w = Ret tt w' ->
      string_at w' (user_host w') = Some h
      /\ string_at w' (user_shost w') = Some (short_of h)
      /\ user_runhost w' = user_host w'
      /\ user_srunhost w' = user_shost w')
  /\ (sys_strdup_ok s = true \/ dotless h ->
      exists w', get_hostname s w = Ret tt w')
  /\ (sys_strdup_ok s = false -> ~ dotless h ->
      exists w',
        get_hostname s w = Exit 1 w'
        /\ string_at w' (user_host w') = Some (short_of h)
        /\ user_shost w' = NULL
        /\ user_runhost w' = runhost (sudo_user w)
        /\ user_srunhost w' = srunhost (sudo_user w)).
Proof.
  intros Hh Hn.
  destruct (strchr (buffer_of h) "."%char) as [i|] eqn:Hi.
  - rewrite (get_hostname_dotted s w h i Hh Hi). split; [|split].
    + destruct (sys_strdup_ok s); [|discriminate].
      intros w' [= <-].
      destruct (hostname_split_state w h i Hn Hi) as [H1 H2].
      by repeat split.
    + intros [->|Hd]; [by eexists|].
      rewrite (strchr_dotless h Hd) in Hi. discriminate.
    + intros -> _. eexists. split; [reflexivity|].
      destruct w as [hp b u pn tr]. destruct u as [p0 ho sh rh srh c cb].
      cbv [string_at user_host user_shost user_runhost user_srunhost log with_trace
           with_heap with_sudo_user sudo_user heap brk host shost runhost srunhost
           upd_host upd_shost].
      rewrite lookup_insert_eq. simpl.
      by rewrite (string_of_list_ascii_short_of h i Hi).
  - rewrite (get_hostname_undotted s w h Hh Hi).
    pose proof (strchr_none_dotless h Hn Hi) as Hd.
    split; [|split; [by eexists|by intros _ []]].
    intros w' [= <-].
    destruct w as [hp b u pn tr]. destruct u as [p0 ho sh rh srh c cb].
    cbv [string_at user_host user_shost user_runhost user_srunhost with_hosts with_heap
         with_sudo_user sudo_user heap brk host shost runhost srunhost
         upd_host upd_shost upd_runhost upd_srunhost].
    rewrite lookup_insert_eq. simpl.
    rewrite (short_of_dotless h Hd), (string_of_buffer_of h Hn). by repeat split.
Qed.

Lemma hostname_split_at_first_dot_witness :
  exists w',
    get_hostname (scenario [] (Some "foo.example.com") true) world0 = Ret tt w'
    /\ string_at w' (user_host w') = Some "foo.example.com"
    /\ string_at w' (user_shost w') = Some "foo"
    /\ user_runhost w' = user_host w'
    /\ user_srunhost w' = user_shost w'.
Proof.
  pose proof (hostname_split_at_first_dot (scenario [] (Some "foo.example.com") true)
                world0 "foo.example.com" eq_refl eq_refl) as (H1 & H2 & _).
  destruct (H2 (or_introl eq_refl)) as [w' Hw'].
  exists w'. split; [exact Hw'|]. exact (H1 w' Hw').
Defined.

(** C4, as stated, fails: on a host named foo.example.com with no memory
    for the copy of "foo" the lookup succeeds, and [get_hostname] ends the
    run with [user_shost] and both run-host members NULL and [user_host]
    reading as "foo": no short host, no aliases, and the full host cut. *)
Lemma hostname_split_fails_without_memory :
  sys_hostname (scenario_no_memory [] (Some "foo.example.com")) = Some "foo.example.com"
  /\ exists w',
       get_hostname (scenario_no_memory [] (Some "foo.example.com")) world0 = Exit 1 w'
       /\ user_shost w' = NULL
       /\ user_runhost w' = NULL
       /\ user_srunhost w' = NULL
       /\ string_at w' (user_host w') = Some "foo".
Proof.
  split; [reflexivity|].
  eexists. split; [vm_compute; reflexivity|]. by vm_compute.
Qed.

(** C9: a host name without [.] is not copied and not cut.  The only
    buffer that appears is the one the lookup returned, holding the whole
    name, and [user_shost], [user_runhost] and [user_srunhost] are all the
    very pointer [user_host] is. *)
Theorem dotless_hostname_is_shared (s : sys) (w : world) (h : string) :
  sys_hostname s = Some h ->
  dotless h ->
  exists w',
    get_hostname s w = Ret tt w'
    /\ user_host w' = Ref (brk w)
    /\ user_shost w' = user_host w'
    /\ user_runhost w' = user_host w'
    /\ user_srunhost w' = user_host w'
    /\ heap w' = <[brk w := buffer_of h]> (heap w)
    /\ brk w' = S (brk w)
    /\ trace w' = trace w.
Proof.
  intros Hh Hd.
  rewrite (get_hostname_undotted s w h Hh (strchr_dotless h Hd)).
  eexists; split; [reflexivity|]. by repeat split.
Qed.

Lemma dotless_hostname_is_shared_witness :
  exists w',
    get_hostname (scenario [] (Some "buildhost") true) world0 = Ret tt w'
    /\ user_host w' = Ref 0
    /\ user_shost w' = user_host w'
    /\ user_runhost w' = user_host w'
    /\ user_srunhost w' = user_host w'
    /\ heap w' = <[0%nat := buffer_of "buildhost"]> ∅
    /\ brk w' = 1%nat
    /\ trace w' = [].
Proof.
  exact (dotless_hostname_is_shared (scenario [] (Some "buildhost") true) world0
           "buildhost" eq_refl eq_refl).
Defined.

(** ** getopt_long: progress, and what it hands to the loop *)

Lemma budget_weight g :
  Getopt.budget g = (String.length (Getopt.nextchar g) + weight (Getopt.rest g))%nat.
Proof. reflexivity. Qed.

Lemma short_option_budget optstring c tail args sk r g' :
  Getopt.short_option optstring c tail args sk = (r, g') ->
  (Getopt.budget g' <= String.length tail + weight args)%nat.
Proof.
  unfold Getopt.short_option.
  destruct (Getopt.short_lookup optstring c) as [[]|].
  - destruct tail as [|t0 tail'].
    + destruct args as [|a args']; intros [= <- <-]; rewrite budget_weight; simpl; lia.
    + intros [= <- <-]. rewrite budget_weight. simpl. lia.
  - intros [= <- <-]. rewrite budget_weight. simpl. lia.
  - intros [= <- <-]. rewrite budget_weight. simpl. lia.
Qed.

Lemma long_option_budget longopts body args sk r g' :
  Getopt.long_option longopts body args sk = (r, g') ->
  (Getopt.budget g' <= weight args)%nat.
Proof.
  unfold Getopt.long_option. destruct (Getopt.split_eq body) as [n v].
  destruct (Getopt.long_lookup longopts n) as [o|].
  - destruct (Getopt.has_arg o); destruct v as [x|];
      try (intros [= <- <-]; rewrite budget_weight; simpl; lia).
    destruct args as [|a args']; intros [= <- <-]; rewrite budget_weight; simpl; lia.
  - intros [= <- <-]. rewrite budget_weight. simpl. lia.
Qed.

Lemma classify_cluster a c tail :
  Getopt.classify a = Getopt.Cluster c tail -> a = String "-"%char (String c tail).
Proof.
  destruct a as [|c0 [|c1 body]]; simpl; try discriminate.
  destruct (Ascii.eqb c0 "-"%char) eqn:E0; [|discriminate].
  destruct (Ascii.eqb c1 "-"%char); [destruct body; discriminate|].
  intros [= <- <-]. apply Ascii.eqb_eq in E0. by subst.
Qed.

Lemma scan_budget optstring longopts args sk ch a g' :
  Getopt.scan optstring longopts args sk = (Getopt.Opt ch a, g') ->
  (Getopt.budget g' < weight args)%nat.
Proof.
  revert sk. induction args as [|x args' IH]; intros sk; simpl.
  - discriminate.
  - destruct (Getopt.classify x) as [| |body|c tail] eqn:Hx.
    + intros H. apply IH in H. lia.
    + discriminate.
    + intros H. apply long_option_budget in H. lia.
    + intros H. apply short_option_budget in H.
      apply classify_cluster in Hx. subst x. simpl. lia.
Qed.

(** Every call that returns an option leaves less to scan. *)
Lemma getopt_long_budget optstring longopts g ch a g' :
  Getopt.getopt_long optstring longopts g = (Getopt.Opt ch a, g') ->
  (Getopt.budget g' < Getopt.budget g)%nat.
Proof.
  unfold Getopt.getopt_long. rewrite (budget_weight g).
  destruct (Getopt.nextchar g) as [|c tail].
  - intros H. apply scan_budget in H. simpl. lia.
  - intros H. apply short_option_budget in H. simpl. lia.
Qed.

Lemma short_option_optarg c tail args sk ch a g' :
  Getopt.short_option short_opts c tail args sk = (Getopt.Opt ch a, g') ->
  with_optarg ch a.
Proof.
  unfold Getopt.short_option, with_optarg.
  destruct (Getopt.short_lookup short_opts c) as [[]|] eqn:Hl.
  - destruct tail as [|t0 tail'].
    + destruct args as [|x args']; intros [= <- <- <-]; [discriminate|eauto].
    + intros [= <- <- <-]. eauto.
  - intros [= <- <- <-] Hc. exfalso.
    apply orb_true_iff in Hc as [Hc|Hc]; apply Ascii.eqb_eq in Hc; subst c; discriminate.
  - intros [= <- <- <-]. discriminate.
Qed.

Lemma long_lookup_In longopts n o :
  Getopt.long_lookup longopts n = Some o -> In o longopts.
Proof.
  unfold Getopt.long_lookup.
  destruct (List.filter _ longopts) as [|o1 l1] eqn:H1.
  - destruct (List.filter (fun o => String.prefix n (Getopt.name o)) longopts)
      as [|o2 [|o3 l2]] eqn:H2; try discriminate.
    intros [= <-]. eapply (proj1 (filter_In _ _ _)). rewrite H2. by left.
  - intros [= <-]. eapply (proj1 (filter_In _ _ _)). rewrite H1. by left.
Qed.

Lemma long_option_optarg body args sk ch a g' :
  Getopt.long_option long_opts body args sk = (Getopt.Opt ch a, g') ->
  with_optarg ch a.
Proof.
  unfold Getopt.long_option, with_optarg. destruct (Getopt.split_eq body) as [n v].
  destruct (Getopt.long_lookup long_opts n) as [o|] eqn:Hl.
  - apply long_lookup_In in Hl.
    destruct (Getopt.has_arg o) eqn:Ha; destruct v as [x|].
    + intros [= <- <- <-]. eauto.
    + destruct args as [|y args']; intros [= <- <- <-]; [discriminate|eauto].
    + intros [= <- <- <-]. discriminate.
    + intros [= <- <- <-] Hc. exfalso.
      simpl in Hl. destruct Hl as [<-|[<-|[<-|[<-|[]]]]]; simpl in *; discriminate.
  - intros [= <- <- <-]. discriminate.
Qed.

Lemma scan_optarg args sk ch a g' :
  Getopt.scan short_opts long_opts args sk = (Getopt.Opt ch a, g') ->
  with_optarg ch a.
Proof.
  revert sk. induction args as [|x args' IH]; intros sk; simpl; [discriminate|].
  destruct (Getopt.classify x) as [| |body|c tail].
  - apply IH.
  - discriminate.
  - apply long_option_optarg.
  - apply short_option_optarg.
Qed.

Lemma getopt_long_optarg g ch a g' :
  Getopt.getopt_long short_opts long_opts g = (Getopt.Opt ch a, g') ->
  with_optarg ch a.
Proof.
  unfold Getopt.getopt_long. destruct (Getopt.nextchar g) as [|c tail].
  - apply scan_optarg.
  - apply short_option_optarg.
Qed.

(** ** Case-insensitive comparison *)

Lemma tolower_NUL c : tolower c = NUL -> c = NUL.
Proof. destruct c as [[] [] [] [] [] [] [] []]; vm_compute; congruence. Qed.

Lemma byte_inj a b : byte a = byte b -> a = b.
Proof.
  unfold byte. intros H. apply Nat2Z.inj in H.
  rewrite <- (ascii_nat_embedding a), <- (ascii_nat_embedding b). by rewrite H.
Qed.

Lemma byte_zero c : byte c = 0%Z -> c = NUL.
Proof. intros H. by apply byte_inj. Qed.

(** Strings that are equal once in lower case compare equal. *)
Lemma lower_eq_strcasecmp a b : lower a = lower b -> strcasecmp a b = 0%Z.
Proof.
  revert b. induction a as [|x r IH]; intros [|y r']; simpl; try discriminate.
  - reflexivity.
  - intros [= Hc Hr]. rewrite Hc, Ascii.eqb_refl. by apply IH.
Qed.

(** C strings that compare equal are equal once in lower case. *)
Lemma strcasecmp_lower_eq a b :
  nul_free a -> nul_free b -> strcasecmp a b = 0%Z -> lower a = lower b.
Proof.
  unfold nul_free. revert b. induction a as [|x r IH]; intros [|y r']; simpl.
  - reflexivity.
  - intros _ Hb H. apply orb_false_elim in Hb as [Hy _].
    assert (byte (tolower y) = 0%Z) as H0 by lia.
    apply byte_zero, tolower_NUL in H0. subst y. discriminate.
  - intros Ha _ H. apply orb_false_elim in Ha as [Hx _].
    apply byte_zero, tolower_NUL in H. subst x. discriminate.
  - intros Ha Hb. apply orb_false_elim in Ha as [_ Ha]. apply orb_false_elim in Hb as [_ Hb].
    destruct (Ascii.eqb (tolower x) (tolower y)) eqn:E.
    + apply Ascii.eqb_eq in E. intros H. rewrite E. f_equal. by apply IH.
    + intros H. exfalso. apply Ascii.eqb_neq in E. apply E, byte_inj. lia.
Qed.

Lemma ci_match_strcasecmp v p : ci_match v p = true -> strcasecmp v p = 0%Z.
Proof. unfold ci_match. intros H. apply String.eqb_eq in H. by apply lower_eq_strcasecmp. Qed.

Lemma strcasecmp_ci_match v p :
  nul_free v -> nul_free p -> strcasecmp v p = 0%Z -> ci_match v p = true.
Proof.
  intros Hv Hp H. unfold ci_match. apply String.eqb_eq. by apply strcasecmp_lower_eq.
Qed.

(** For C strings, [strcasecmp(optarg, "json") != 0] says that [optarg] is
    no case-insensitive match for "json". *)
Lemma no_ci_match_json v :
  nul_free v -> ci_match v "json" = false -> (strcasecmp v "json" =? 0)%Z = false.
Proof.
  intros Hv H. apply Z.eqb_neq. intros H0.
  rewrite (strcasecmp_ci_match v "json" Hv eq_refl H0) in H. discriminate.
Qed.

(** ** The option loop *)

Lemma usage_1 w :
  usage 1 w = Exit 1 (log (Stderr (usage_text (progname w))) w).
Proof. reflexivity. Qed.

Lemma usage_1_exit {A} (k : unit -> M A) w : usage_error_exit w ((usage 1 ;; k tt) w).
Proof.
  exists (log (Stderr (usage_text (progname w))) w), [Stderr (usage_text (progname w))].
  repeat split.
Qed.

Lemma arg_case_accepted s ch a o f w :
  accepted (ch, a) = true ->
  arg_case s ch a o f w
  = Ret (final_output [(ch, a)] o, final_format [(ch, a)] f) w.
Proof.
  unfold accepted, arg_case. destruct a as [v|]; [|discriminate].
  destruct (Ascii.eqb ch "f"%char) eqn:Ef.
  - apply Ascii.eqb_eq in Ef. subst ch. simpl. intros H.
    rewrite (ci_match_strcasecmp _ _ H). reflexivity.
  - rewrite andb_false_l, orb_false_r. intros Eo.
    apply Ascii.eqb_eq in Eo. subst ch. reflexivity.
Qed.

Lemma arg_case_bad_format s v o f w :
  (strcasecmp v "json" =? 0)%Z = false ->
  usage_error_exit w (arg_case s "f"%char (Some v) o f w).
Proof.
  intros H. unfold arg_case. simpl. rewrite H. simpl.
  exists (log (Stderr (usage_text (progname w)))
              (log (Warnx ("unsupported output format " +:+ v)) w)),
         [Warnx ("unsupported output format " +:+ v); Stderr (usage_text (progname w))].
  split; [reflexivity|]. split; [by repeat split|].
  split; [|by split].
  destruct w; simpl. by rewrite <- app_assoc.
Qed.

Lemma arg_case_informational s ch a o f w :
  informational (ch, a) = true ->
  info_exit w (arg_case s ch a o f w).
Proof.
  unfold informational, arg_case. simpl. intros H.
  apply orb_true_iff in H as [H|H]; apply Ascii.eqb_eq in H; subst ch; simpl.
  - eexists _, _. split; [reflexivity|]. split; [by repeat split|].
    split; [simpl; rewrite <- !app_assoc; reflexivity|by split].
  - eexists _, _. split; [reflexivity|]. split; [by repeat split|].
    split; [simpl; rewrite <- !app_assoc; reflexivity|by split].
Qed.

Lemma arg_case_other s ch a o f w :
  informational (ch, a) = false ->
  with_optarg ch a ->
  (exists o' f', arg_case s ch a o f w = Ret (o', f') w)
  \/ usage_error_exit w (arg_case s ch a o f w).
Proof.
  unfold informational, with_optarg. simpl. intros Hi Ha.
  apply orb_false_elim in Hi as [Hh HV].
  destruct (Ascii.eqb ch "f"%char) eqn:Ef.
  - destruct Ha as [v ->]; [reflexivity|]. apply Ascii.eqb_eq in Ef. subst ch.
    destruct (strcasecmp v "json" =? 0)%Z eqn:E.
    + left. unfold arg_case. simpl. rewrite E. simpl. eauto.
    + right. by apply arg_case_bad_format.
  - destruct (Ascii.eqb ch "o"%char) eqn:Eo.
    + destruct Ha as [v ->]; [reflexivity|]. left.
      unfold arg_case. rewrite Ef, Hh, Eo. eauto.
    + right. unfold arg_case. rewrite Ef, Hh, Eo, HV.
      apply (usage_1_exit (fun _ => ret (o, f))).
Qed.

(** One turn of the loop: getopt_long is at the end of the options, or
    answers [?] after a message of its own, which the [switch] takes to
    [usage(1)], or hands an option to the [switch]. *)
Lemma arg_loop_end s fuel g g' o f w :
  Getopt.getopt_long short_opts long_opts g = (Getopt.End_, g') ->
  arg_loop s (S fuel) g o f w = Ret (g', o, f) w.
Proof. intros Hg. simpl. unfold bind, getopt_long. by rewrite Hg. Qed.

Lemma arg_loop_opt s fuel g g' ch a o f w :
  Getopt.getopt_long short_opts long_opts g = (Getopt.Opt ch a, g') ->
  arg_loop s (S fuel) g o f w =
    if Ascii.eqb ch "?"%char then
      Exit 1 (log (Stderr (usage_text (progname w)))
                  (log (Stderr (sys_getopt_message s g)) w))
    else ('(o', f') ← arg_case s ch a o f; arg_loop s fuel g' o' f') w.
Proof.
  intros Hg. simpl. unfold bind at 1. unfold getopt_long. rewrite Hg. simpl.
  destruct (Ascii.eqb ch "?"%char) eqn:E; [|reflexivity].
  apply Ascii.eqb_eq in E. subst ch. reflexivity.
Qed.

Lemma refused_usage_error_exit {A} m w :
  usage_error_exit (A := A) w
    (Exit 1 (log (Stderr (usage_text (progname w))) (log (Stderr m) w))).
Proof.
  exists (log (Stderr (usage_text (progname w))) (log (Stderr m) w)),
         [Stderr m; Stderr (usage_text (progname w))].
  split; [reflexivity|]. split; [by repeat split|].
  split; [|by split].
  destruct w; simpl. by rewrite <- app_assoc.
Qed.

Lemma accepted_not_refused ch a :
  accepted (ch, a) = true -> Ascii.eqb ch "?"%char = false.
Proof.
  unfold accepted. destruct a as [v|]; [|discriminate]. intros H.
  destruct (Ascii.eqb ch "?"%char) eqn:E; [|reflexivity].
  apply Ascii.eqb_eq in E. subst ch. discriminate.
Qed.

(** With enough fuel the loop hands on the operands and leaves the state
    as it was, or ends the run as a usage error, or as help or version. *)
Lemma arg_loop_cases s fuel : forall g o f w,
  (Getopt.budget g < fuel)%nat ->
  (exists g' o' f', arg_loop s fuel g o f w = Ret (g', o', f') w)
  \/ usage_error_exit w (arg_loop s fuel g o f w)
  \/ info_exit w (arg_loop s fuel g o f w).
Proof.
  induction fuel as [|fuel IH]; intros g o f w Hb; [lia|].
  destruct (Getopt.getopt_long short_opts long_opts g) as [[ch a|] g'] eqn:Hg.
  - rewrite (arg_loop_opt s fuel g g' ch a o f w Hg).
    destruct (Ascii.eqb ch "?"%char); [right; left; apply refused_usage_error_exit|].
    pose proof (getopt_long_budget _ _ _ _ _ _ Hg) as Hlt.
    pose proof (getopt_long_optarg _ _ _ _ Hg) as Ha.
    unfold bind. destruct (informational (ch, a)) eqn:Hi.
    + right; right.
      destruct (arg_case_informational s ch a o f w Hi) as (w' & evs & Hr & H).
      rewrite Hr. by exists w', evs.
    + destruct (arg_case_other s ch a o f w Hi Ha)
        as [(o' & f' & Hr)|(w' & evs & Hr & H)]; rewrite Hr.
      * apply IH. lia.
      * right; left. by exists w', evs.
  - left. rewrite (arg_loop_end s fuel g g' o f w Hg). by exists g', o, f.
Qed.

(** Accepted options only: the loop returns the last [-o] and [-f] values
    and the operands, the state as it was. *)
Lemma arg_loop_accepted s g opts ops :
  options_of g opts ops ->
  Forall (fun x => accepted x = true) opts ->
  forall fuel o f w,
    (Getopt.budget g < fuel)%nat ->
    exists g',
      arg_loop s fuel g o f w = Ret (g', final_output opts o, final_format opts f) w
      /\ Getopt.operands g' = ops.
Proof.
  induction 1 as [g g' Hg|g g' ch a opts ops Hg Hrun IH]; intros Hacc fuel o f w Hb.
  - destruct fuel as [|fuel]; [lia|]. rewrite (arg_loop_end s fuel g g' o f w Hg).
    by exists g'.
  - destruct fuel as [|fuel]; [lia|].
    pose proof (getopt_long_budget _ _ _ _ _ _ Hg) as Hlt.
    apply Forall_cons in Hacc as [Hacc1 Hacc].
    rewrite (arg_loop_opt s fuel g g' ch a o f w Hg), (accepted_not_refused ch a Hacc1).
    unfold bind. rewrite (arg_case_accepted s ch a o f w Hacc1).
    destruct (IH Hacc fuel (final_output [(ch, a)] o) (final_format [(ch, a)] f) w)
      as (g'' & Hr & Hops); [lia|].
    exists g''. split; [|exact Hops].
    rewrite Hr. destruct a as [v|]; reflexivity.
Qed.

(** An unsupported format ends the run as a usage error, whatever came
    before it but [-h] and [-V], and whatever follows. *)
Lemma arg_loop_bad_format s v post ops fuel : forall pre g o f w,
  options_of g (pre ++ ("f"%char, Some v) :: post) ops ->
  Forall (fun x => informational x = false) pre ->
  (strcasecmp v "json" =? 0)%Z = false ->
  (Getopt.budget g < fuel)%nat ->
  usage_error_exit w (arg_loop s fuel g o f w).
Proof.
  induction fuel as [|fuel IH]; intros pre g o f w Hrun Hpre Hv Hb; [lia|].
  destruct pre as [|x pre]; simpl in Hrun.
  - inversion Hrun as [|g0 g' ch a opts ops0 Hg Hrest]; subst.
    rewrite (arg_loop_opt s fuel g g' _ _ o f w Hg). simpl. unfold bind.
    destruct (arg_case_bad_format s v o f w Hv) as (w' & evs & Hr & H).
    rewrite Hr. by exists w', evs.
  - inversion Hrun as [|g0 g' ch a opts ops0 Hg Hrest]; subst.
    rewrite (arg_loop_opt s fuel g g' ch a o f w Hg).
    destruct (Ascii.eqb ch "?"%char); [apply refused_usage_error_exit|].
    pose proof (getopt_long_budget _ _ _ _ _ _ Hg) as Hlt.
    pose proof (getopt_long_optarg _ _ _ _ Hg) as Ha.
    apply Forall_cons in Hpre as [Hx Hpre].
    unfold bind.
    destruct (arg_case_other s ch a o f w Hx Ha)
      as [(o' & f' & Hr)|(w' & evs & Hr & H)]; rewrite Hr.
    + apply (IH pre); [exact Hrest|exact Hpre|exact Hv|lia].
    + by exists w', evs.
Qed.

(** No [-h] and no [-V] among the options: the loop returns with the
    operands, or ends the run as a usage error. *)
Lemma arg_loop_no_info s g opts ops :
  options_of g opts ops ->
  Forall (fun x => informational x = false) opts ->
  forall fuel o f w,
    (Getopt.budget g < fuel)%nat ->
    (exists g' o' f',
        arg_loop s fuel g o f w = Ret (g', o', f') w /\ Getopt.operands g' = ops)
    \/ usage_error_exit w (arg_loop s fuel g o f w).
Proof.
  induction 1 as [g g' Hg|g g' ch a opts ops Hg Hrun IH]; intros Hni fuel o f w Hb.
  - destruct fuel as [|fuel]; [lia|]. rewrite (arg_loop_end s fuel g g' o f w Hg).
    left. by exists g', o, f.
  - destruct fuel as [|fuel]; [lia|].
    rewrite (arg_loop_opt s fuel g g' ch a o f w Hg).
    destruct (Ascii.eqb ch "?"%char); [right; apply refused_usage_error_exit|].
    pose proof (getopt_long_budget _ _ _ _ _ _ Hg) as Hlt.
    pose proof (getopt_long_optarg _ _ _ _ Hg) as Ha.
    apply Forall_cons in Hni as [Hni1 Hni].
    unfold bind.
    destruct (arg_case_other s ch a o f w Hni1 Ha)
      as [(o' & f' & Hr)|(w' & evs & Hr & H)]; rewrite Hr.
    + apply IH; [exact Hni|lia].
    + right. by exists w', evs.
Qed.

(** ** The stages of [main] *)

Lemma main_startup_eq s w :
  main_startup s EXIT_FAILURE w =
    let w1 := with_progname
                (sys_progname s (match sys_argv s with a :: _ => a | [] => "cvtsudoers" end)) w in
    if negb (sys_initlocale s) then
      Exit 1 (log (Fatalx "main: unable to allocate memory") w1)
    else if (sys_conf_read s =? -1)%Z then Exit 1 w1
    else if negb (sys_debug_register s) then Exit 1 w1
    else Ret tt w1.
Proof.
  unfold main_startup. run_block.
  destruct (sys_initlocale s), (sys_conf_read s =? -1)%Z, (sys_debug_register s); reflexivity.
Qed.

Lemma main_startup_ok s :
  startup_ok s -> main_startup s EXIT_FAILURE world0 = Ret tt (started s).
Proof.
  intros (Hl & Hc & Hd). rewrite main_startup_eq, Hl, Hd. simpl.
  apply Z.eqb_neq in Hc. by rewrite Hc.
Qed.

(** The input file, lines 143-149, after an option loop that returned. *)
Lemma main_args_input s g input_file output_file output_format fuel o f w :
  arg_loop s fuel (Getopt.start (sys_argv s)) o f w = Ret (g, output_file, output_format) w ->
  fuel = S (Getopt.budget (Getopt.start (sys_argv s))) ->
  match Getopt.operands g with
  | [] => main_args s input_file o f w = Ret (input_file, output_file, output_format) w
  | [x] => main_args s input_file o f w = Ret (x, output_file, output_format) w
  | _ :: _ :: _ => usage_error_exit w (main_args s input_file o f w)
  end.
Proof.
  intros Hr ->.
  assert (main_args s input_file o f w =
          (input_file0 ←
             (if (0 <? Z.of_nat (length (Getopt.operands g)))%Z then
                (if (1 <? Z.of_nat (length (Getopt.operands g)))%Z then usage 1 else ret tt) ;;
                match Getopt.operands g with
                | a :: _ => ret a
                | [] => fault
                end
              else ret input_file);
           ret (input_file0, output_file, output_format)) w) as ->.
  { unfold main_args. unfold bind at 1. by rewrite Hr. }
  destruct (Getopt.operands g) as [|x [|y more]].
  - reflexivity.
  - reflexivity.
  - assert ((0 <? Z.of_nat (length (x :: y :: more)))%Z = true) as ->
      by (apply Z.ltb_lt; simpl; lia).
    assert ((1 <? Z.of_nat (length (x :: y :: more)))%Z = true) as ->
      by (apply Z.ltb_lt; simpl; lia).
    apply (usage_1_exit
             (fun _ => input_file0 ← ret x;
                       ret (input_file0, output_file, output_format))).
Qed.

(** Option handling returns the three values and leaves the state as it
    was, or ends the run as a usage error, or as help or version. *)
Lemma main_args_cases s i o f w :
  (exists i' o' f', main_args s i o f w = Ret (i', o', f') w)
  \/ usage_error_exit w (main_args s i o f w)
  \/ info_exit w (main_args s i o f w).
Proof.
  destruct (arg_loop_cases s (S (Getopt.budget (Getopt.start (sys_argv s))))
              (Getopt.start (sys_argv s)) o f w) as [(g & o' & f' & Hr)|[H|H]]; [lia| | |].
  - pose proof (main_args_input s g i o' f' _ o f w Hr eq_refl) as H.
    destruct (Getopt.operands g) as [|x [|y more]]; eauto 8.
  - right; left. destruct H as (w' & evs & Hr & H).
    exists w', evs. split; [|exact H]. unfold main_args, bind. by rewrite Hr.
  - right; right. destruct H as (w' & evs & Hr & H).
    exists w', evs. split; [|exact H]. unfold main_args, bind. by rewrite Hr.
Qed.

(** Accepted options only: the operands decide. *)
Lemma main_args_accepted s opts ops i o f w :
  options_of (Getopt.start (sys_argv s)) opts ops ->
  Forall (fun x => accepted x = true) opts ->
  match ops with
  | [] => main_args s i o f w = Ret (i, final_output opts o, final_format opts f) w
  | [x] => main_args s i o f w = Ret (x, final_output opts o, final_format opts f) w
  | _ :: _ :: _ => usage_error_exit w (main_args s i o f w)
  end.
Proof.
  intros Hrun Hacc.
  destruct (arg_loop_accepted s _ opts ops Hrun Hacc
              (S (Getopt.budget (Getopt.start (sys_argv s)))) o f w)
    as (g & Hr & <-); [lia|].
  exact (main_args_input s g i _ _ _ o f w Hr eq_refl).
Qed.

(** Two operands or more, and neither [-h] nor [-V]: a usage error. *)
Lemma main_args_too_many s opts ops i o f w :
  options_of (Getopt.start (sys_argv s)) opts ops ->
  Forall (fun x => informational x = false) opts ->
  (2 <= length ops)%nat ->
  usage_error_exit w (main_args s i o f w).
Proof.
  intros Hrun Hni Hlen.
  destruct (arg_loop_no_info s _ opts ops Hrun Hni
              (S (Getopt.budget (Getopt.start (sys_argv s)))) o f w)
    as [(g & o' & f' & Hr & <-)|(w' & evs & Hr & H)]; [lia| |].
  - pose proof (main_args_input s g i o' f' _ o f w Hr eq_refl) as H.
    destruct (Getopt.operands g) as [|x [|y more]]; simpl in Hlen; [lia|lia|exact H].
  - exists w', evs. split; [|exact H]. unfold main_args. by apply bind_exit_eq.
Qed.

(** Identity, host name, defaults and exporter, from a state in which
    [sudo_user.pw] is null: one more event, which decides the status. *)
Lemma main_context_cases s i o w :
  pw (sudo_user w) = None ->
  exists w' e,
    (main_sudo_user s ;; get_hostname s ;; main_export s i o) w
    = Exit (status_of (ending_of [e])) w'
    /\ trace w' = trace w ++ [e]
    /\ (spec_identity s = None -> e = Fatalx "you do not exist in the passwd database")
    /\ (is_export e = true -> e = Export i o (sys_export s i o)).
Proof.
  intros Hpw. unfold bind at 1. rewrite (identity_resolution_lines s w Hpw).
  destruct (spec_identity s) as [p|].
  - unfold bind at 1.
    destruct (get_hostname_cases s (with_identity (Some p) w))
      as [(w' & Hr & Ht & _)|(_ & w' & Hr & Ht)]; rewrite Hr.
    + unfold main_export, init_defaults, export_sudoers.
      destruct (sys_init_defaults s).
      * run_block. simpl.
        exists (log (Export i o (sys_export s i o)) w'), (Export i o (sys_export s i o)).
        split; [destruct (sys_export s i o); reflexivity|].
        split; [simpl; by rewrite Ht|]. by split.
      * run_block. simpl.
        eexists _, (Fatalx _). split; [reflexivity|].
        split; [simpl; by rewrite Ht|]. by split.
    + eexists _, (Fatalx _). split; [reflexivity|].
      split; [exact Ht|]. by split.
  - eexists _, (Fatalx _). split; [reflexivity|]. by repeat split.
Qed.

(** ** Whole runs *)

Lemma run_eq s :
  run s =
    match main_startup s EXIT_FAILURE world0 with
    | Ret _ w1 =>
        ('(i, o, _) ← main_args s "-" "-" "JSON";
         main_sudo_user s ;; get_hostname s ;; main_export s i o) w1
    | Exit c w => Exit c w
    | Fault => Fault
    | OutOfFuel => OutOfFuel
    end.
Proof. reflexivity. Qed.

Lemma run_started s :
  startup_ok s ->
  run s = ('(i, o, _) ← main_args s "-" "-" "JSON";
           main_sudo_user s ;; get_hostname s ;; main_export s i o) (started s).
Proof. intros H. by rewrite run_eq, (main_startup_ok s H). Qed.

Lemma never_exported_In evs i o ok : never_exported evs -> ~ In (Export i o ok) evs.
Proof.
  unfold never_exported. intros H Hin.
  assert (existsb is_export evs = true) as H'
    by (apply existsb_exists; by exists (Export i o ok)).
  congruence.
Qed.

Lemma usage_error_ending evs t :
  last evs = Some (Stderr t) -> ending_of evs = UsageErrorExit.
Proof. unfold ending_of. by intros ->. Qed.

Lemma options_end_eq g g' ops :
  Getopt.getopt_long short_opts long_opts g = (Getopt.End_, g') ->
  Getopt.operands g' = ops ->
  options_of g [] ops.
Proof. intros H <-. by apply options_end. Qed.

(** Reading the options of a given argument vector off the model. *)
Ltac read_options :=
  repeat (eapply options_opt; [reflexivity|]);
  eapply options_end_eq; reflexivity.

(** ** Output format *)

(** C2, as amended: when startup went through and the option loop reaches
    a -f/--format option (no -h or -V before it in the argument vector)
    whose value is no case-insensitive match for "json", the run ends with
    status 1, the usage message on the standard error last, and the
    exporter is not called; a value that matches is taken as the output
    format and the loop goes on. *)
Theorem unsupported_format_is_usage_error
    (s : sys) (pre post : list (ascii * option string)) (v : string) (ops : list string) :
  startup_ok s ->
  options_of (Getopt.start (sys_argv s)) (pre ++ ("f"%char, Some v) :: post) ops ->
  Forall (fun x => informational x = false) pre ->
  nul_free v ->
  ci_match v "json" = false ->
  usage_error_exit (started s) (run s)
  /\ forall v',
       ci_match v' "json" = true ->
       forall o f w, arg_case s "f"%char (Some v') o f w = Ret (o, v') w.
Proof.
  intros Hs Hrun Hpre Hv Hm. split.
  - rewrite (run_started s Hs).
    destruct (arg_loop_bad_format s v post ops
                (S (Getopt.budget (Getopt.start (sys_argv s)))) pre
                (Getopt.start (sys_argv s)) "-" "JSON" (started s) Hrun Hpre
                (no_ci_match_json v Hv Hm)) as (w' & evs & Hr & H); [lia|].
    exists w', evs. split; [|exact H].
    apply bind_exit_eq. unfold main_args. by apply bind_exit_eq.
  - intros v' Hm' o f w.
    exact (arg_case_accepted s "f"%char (Some v') o f w Hm').
Qed.

Lemma unsupported_format_is_usage_error_witness :
  usage_error_exit (started (scenario ["-o"; "out"; "--format=xml"; "in"] None true))
                   (run (scenario ["-o"; "out"; "--format=xml"; "in"] None true))
  /\ arg_case (scenario ["-o"; "out"; "--format=xml"; "in"] None true)
              "f"%char (Some "JSON") "-" "JSON" world0
     = Ret ("-", "JSON") world0.
Proof.
  pose proof (unsupported_format_is_usage_error
                (scenario ["-o"; "out"; "--format=xml"; "in"] None true)
                [("o"%char, Some "out")] [] "xml" ["in"]) as H.
  destruct H as [H1 H2].
  - repeat split; discriminate.
  - read_options.
  - repeat constructor.
  - reflexivity.
  - reflexivity.
  - split; [exact H1|exact (H2 "JSON" eq_refl "-" "JSON" world0)].
Defined.

(** C2, as stated, fails: in [cvtsudoers -h -f xml] the option -f is given
    the value xml, no match for "json", and the run writes the help text
    and ends with status 0. *)
Lemma format_after_help_is_not_checked :
  options_of (Getopt.start (sys_argv (scenario ["-h"; "-f"; "xml"] None true)))
             [("h"%char, None); ("f"%char, Some "xml")] []
  /\ ci_match "xml" "json" = false
  /\ exit_status (run (scenario ["-h"; "-f"; "xml"] None true)) = Some 0%Z
  /\ (ending_of <$> (trace <$> final_world (run (scenario ["-h"; "-f"; "xml"] None true))))
     = Some InfoExit.
Proof.
  split; [|by vm_compute].
  read_options.
Qed.

(** ** Positional arguments *)

(** C6, as amended: when startup went through and no -h or -V is among
    the options, two or more operands end the run with status 1 after the
    usage message; when moreover every option is taken (only -o, and -f
    with a value matching "json"), exactly one operand becomes the input
    path and none leaves the input path "-", and the exporter is what
    follows identity and host name resolution, called with that input path
    and the output path of the last -o (or "-"). *)
Theorem positional_arguments
    (s : sys) (opts : list (ascii * option string)) (ops : list string) :
  startup_ok s ->
  options_of (Getopt.start (sys_argv s)) opts ops ->
  Forall (fun x => informational x = false) opts ->
  ((2 <= length ops)%nat -> usage_error_exit (started s) (run s))
  /\ (Forall (fun x => accepted x = true) opts ->
      forall input_file,
        (ops = [input_file] \/ (ops = [] /\ input_file = "-")) ->
        main_args s "-" "-" "JSON" (started s)
        = Ret (input_file, final_output opts "-", final_format opts "JSON") (started s)
        /\ run s = (main_sudo_user s ;; get_hostname s ;;
                    main_export s input_file (final_output opts "-")) (started s)).
Proof.
  intros Hs Hrun Hni. rewrite (run_started s Hs). split.
  - intros Hlen.
    destruct (main_args_too_many s opts ops "-" "-" "JSON" (started s) Hrun Hni Hlen)
      as (w' & evs & Hr & H).
    exists w', evs. split; [|exact H]. by apply bind_exit_eq.
  - intros Hacc input_file Hops.
    pose proof (main_args_accepted s opts ops "-" "-" "JSON" (started s) Hrun Hacc) as H.
    destruct Hops as [->|[-> ->]];
      (split; [exact H|by rewrite (bind_ret_eq _ _ _ _ _ H)]).
Qed.

Lemma positional_arguments_witness :
  usage_error_exit (started (scenario ["-o"; "out"; "a"; "b"] None true))
                   (run (scenario ["-o"; "out"; "a"; "b"] None true))
  /\ main_args (scenario ["-o"; "out"; "a"] None true) "-" "-" "JSON"
               (started (scenario ["-o"; "out"; "a"] None true))
     = Ret ("a", "out", "JSON") (started (scenario ["-o"; "out"; "a"] None true))
  /\ main_args (scenario ["-o"; "out"] None true) "-" "-" "JSON"
               (started (scenario ["-o"; "out"] None true))
     = Ret ("-", "out", "JSON") (started (scenario ["-o"; "out"] None true)).
Proof.
  split; [|split].
  - apply (positional_arguments (scenario ["-o"; "out"; "a"; "b"] None true)
             [("o"%char, Some "out")] ["a"; "b"]).
    + repeat split; discriminate.
    + read_options.
    + repeat constructor.
    + simpl. lia.
  - apply (positional_arguments (scenario ["-o"; "out"; "a"] None true)
             [("o"%char, Some "out")] ["a"]).
    + repeat split; discriminate.
    + read_options.
    + repeat constructor.
    + repeat constructor.
    + by left.
  - apply (positional_arguments (scenario ["-o"; "out"] None true)
             [("o"%char, Some "out")] []).
    + repeat split; discriminate.
    + read_options.
    + repeat constructor.
    + repeat constructor.
    + by right.
Defined.

(** C6, as stated, fails: [cvtsudoers -h a b] passes two positional
    arguments, and the run writes the help text and ends with status 0. *)
Lemma operands_after_help_are_not_counted :
  options_of (Getopt.start (sys_argv (scenario ["-h"; "a"; "b"] None true)))
             [("h"%char, None)] ["a"; "b"]
  /\ exit_status (run (scenario ["-h"; "a"; "b"] None true)) = Some 0%Z
  /\ (ending_of <$> (trace <$> final_world (run (scenario ["-h"; "a"; "b"] None true))))
     = Some InfoExit.
Proof.
  split; [|by vm_compute].
  read_options.
Qed.

(** ** Unresolvable identity *)

(** C8, as amended: when no identity can be resolved the exporter is never
    called (so the input file is never opened), and the run ends with
    status 1 unless option handling ended it with the help or version text;
    when startup and option handling go through, the run ends on the fatal
    message about the passwd database, with status 1 and nothing else
    written. *)
Theorem unresolvable_identity_is_fatal (s : sys) :
  spec_identity s = None ->
  (exists c w,
      run s = Exit c w
      /\ never_exported (trace w)
      /\ (c = EXIT_FAILURE \/ ending_of (trace w) = InfoExit))
  /\ (startup_ok s ->
      forall i o f,
        main_args s "-" "-" "JSON" (started s) = Ret (i, o, f) (started s) ->
        run s = Exit EXIT_FAILURE
                  (log (Fatalx "you do not exist in the passwd database")
                       (with_identity None (started s)))).
Proof.
  intros Hid. split.
  - rewrite run_eq, main_startup_eq. cbv zeta. fold (started s).
    destruct (sys_initlocale s); simpl.
    2: { eexists _, _. split; [reflexivity|]. split; [reflexivity|by left]. }
    destruct (sys_conf_read s =? -1)%Z.
    { eexists _, _. split; [reflexivity|]. split; [reflexivity|by left]. }
    destruct (sys_debug_register s); simpl.
    2: { eexists _, _. split; [reflexivity|]. split; [reflexivity|by left]. }
    destruct (main_args_cases s "-" "-" "JSON" (started s))
      as [(i & o & f & Hr)|[(w' & evs & Hr & _ & Ht & Hne & Hl)|(w' & evs & Hr & _ & Ht & Hne & Hl)]].
    + rewrite (bind_ret_eq _ _ _ _ _ Hr). cbv beta iota.
      destruct (main_context_cases s i o (started s) eq_refl) as (w' & e & Hrun & Ht & He & _).
      rewrite Hrun, (He Hid). exists 1%Z, w'. split; [reflexivity|].
      simpl in Ht. rewrite Ht, (He Hid). split; [reflexivity|by left].
    + rewrite (bind_exit_eq _ _ _ _ _ Hr). exists 1%Z, w'. split; [reflexivity|].
      simpl in Ht. rewrite Ht. split; [exact Hne|by left].
    + rewrite (bind_exit_eq _ _ _ _ _ Hr). exists 0%Z, w'. split; [reflexivity|].
      simpl in Ht. rewrite Ht. split; [exact Hne|by right].
  - intros Hs i o f Hr. rewrite (run_started s Hs), (bind_ret_eq _ _ _ _ _ Hr).
    cbv beta iota. unfold bind at 1.
    rewrite (identity_resolution_lines s (started s) eq_refl), Hid. reflexivity.
Qed.

Lemma unresolvable_identity_is_fatal_witness :
  spec_identity (scenario_no_passwd ["policy"]) = None
  /\ run (scenario_no_passwd ["policy"])
     = Exit EXIT_FAILURE
         (log (Fatalx "you do not exist in the passwd database")
              (with_identity None (started (scenario_no_passwd ["policy"])))).
Proof.
  split; [reflexivity|].
  apply (proj2 (unresolvable_identity_is_fatal (scenario_no_passwd ["policy"]) eq_refl)
           ltac:(repeat split; discriminate) "policy" "-" "JSON").
  reflexivity.
Defined.

(** C8, as stated, fails: [cvtsudoers -V] run by a user without a passwd
    record (and no SUDO_USER in the environment) writes the version and
    ends with status 0. *)
Lemma version_needs_no_identity :
  spec_identity (scenario_no_passwd ["-V"]) = None
  /\ sys_getpwuid (scenario_no_passwd ["-V"]) (sys_uid (scenario_no_passwd ["-V"])) = None
  /\ exit_status (run (scenario_no_passwd ["-V"])) = Some 0%Z
  /\ (ending_of <$> (trace <$> final_world (run (scenario_no_passwd ["-V"]))))
     = Some InfoExit.
Proof. by vm_compute. Qed.

(** ** The acting user without privilege *)

(** Only lines 154-158 of [main] read the environment. *)
Lemma arg_loop_SUDO_USER v s fuel : forall g o f w,
  arg_loop (with_SUDO_USER v s) fuel g o f w = arg_loop s fuel g o f w.
Proof.
  induction fuel as [|fuel IH]; intros g o f w; [reflexivity|].
  destruct (Getopt.getopt_long short_opts long_opts g) as [[ch a|] g'] eqn:Hg.
  2: { by rewrite !(arg_loop_end _ fuel g g' o f w Hg). }
  rewrite !(arg_loop_opt _ fuel g g' ch a o f w Hg).
  change (sys_getopt_message (with_SUDO_USER v s)) with (sys_getopt_message s).
  destruct (Ascii.eqb ch "?"%char); [reflexivity|].
  unfold bind. change (arg_case (with_SUDO_USER v s)) with (arg_case s).
  destruct (arg_case s ch a o f w) as [[o' f'] w'|c w'| |]; try reflexivity.
  apply IH.
Qed.

Lemma main_args_SUDO_USER v s i o f w :
  main_args (with_SUDO_USER v s) i o f w = main_args s i o f w.
Proof.
  unfold main_args. unfold bind at 1 3.
  change (sys_argv (with_SUDO_USER v s)) with (sys_argv s).
  by rewrite arg_loop_SUDO_USER.
Qed.

Lemma main_sudo_user_unprivileged s w :
  sys_euid s <> 0%Z ->
  main_sudo_user s w =
    (set_user_base (Lit "") ;;
     set_user_cmnd (Lit "") ;;
     u ← get_sudo_user;
     match pw u with
     | None =>
         set_pw (sys_getpwuid s (sys_uid s)) ;;
         u ← get_sudo_user;
         match pw u with
         | None => sudo_fatalx "you do not exist in the passwd database"
         | Some _ => ret tt
         end
     | Some _ => ret tt
     end) w.
Proof.
  intros H. apply Z.eqb_neq in H. unfold main_sudo_user, geteuid. by rewrite H.
Qed.

(** C7: without elevated effective privilege (euid not 0) SUDO_USER has
    no effect.  Two runs that differ only in the value of that variable
    (any value, or none) do the same in every respect; lines 151-162
    resolve the same identity from any state, and the identity is the
    record of the real user id. *)
Theorem acting_user_ignored_without_privilege (s : sys) (v : option string) :
  sys_euid s <> 0%Z ->
  run (with_SUDO_USER v s) = run s
  /\ (forall w, main_sudo_user (with_SUDO_USER v s) w = main_sudo_user s w)
  /\ spec_identity (with_SUDO_USER v s) = sys_getpwuid s (sys_uid s)
  /\ spec_identity s = sys_getpwuid s (sys_uid s).
Proof.
  intros He.
  assert (forall w, main_sudo_user (with_SUDO_USER v s) w = main_sudo_user s w) as Hsu.
  { intros w. rewrite (main_sudo_user_unprivileged s w He).
    by rewrite (main_sudo_user_unprivileged (with_SUDO_USER v s) w He). }
  split; [|split; [exact Hsu|]].
  - rewrite !run_eq.
    change (main_startup (with_SUDO_USER v s)) with (main_startup s).
    destruct (main_startup s EXIT_FAILURE world0) as [[] w1|c w1| |]; try reflexivity.
    unfold bind at 1 4. rewrite main_args_SUDO_USER.
    destruct (main_args s "-" "-" "JSON" w1) as [[[i o] f] w2|c w2| |]; try reflexivity.
    unfold bind at 1 3. rewrite Hsu.
    destruct (main_sudo_user s w2) as [[] w3|c w3| |]; reflexivity.
  - apply Z.eqb_neq in He. unfold spec_identity, elevated. simpl. by rewrite He.
Qed.

Lemma acting_user_ignored_without_privilege_witness :
  sys_euid (scenario ["policy"] (Some "foo.example.com") true) <> 0%Z
  /\ run (with_SUDO_USER (Some "root") (scenario ["policy"] (Some "foo.example.com") true))
     = run (scenario ["policy"] (Some "foo.example.com") true)
  /\ spec_identity
       (with_SUDO_USER (Some "root") (scenario ["policy"] (Some "foo.example.com") true))
     = Some alice.
Proof.
  assert (sys_euid (scenario ["policy"] (Some "foo.example.com") true) <> 0%Z) as H
    by discriminate.
  split; [exact H|].
  pose proof (acting_user_ignored_without_privilege
                (scenario ["policy"] (Some "foo.example.com") true) (Some "root") H)
    as (H1 & _ & H2 & _).
  split; [exact H1|exact H2].
Defined.

(** ** Worked runs *)

(** Operands may stand anywhere; [--] ends the options; long options may be
    abbreviated. *)
Example options_of_mixed_vector :
  options_of
    (Getopt.start ["cvtsudoers"; "in"; "-o"; "out"; "--form=JSON"; "--"; "-h"])
    [("o"%char, Some "out"); ("f"%char, Some "JSON")] ["in"; "-h"].
Proof. read_options. Qed.

(** The end-to-end scenario of the specification: one input, default
    format, no [-o]. *)
Example run_default_output :
  exit_status (run (scenario ["policy"] (Some "foo.example.com") true)) = Some 0%Z
  /\ (trace <$> final_world (run (scenario ["policy"] (Some "foo.example.com") true)))
     = Some [Export "policy" "-" true]
  /\ exit_status (run (scenario ["policy"] (Some "foo.example.com") false)) = Some 1%Z.
Proof. by vm_compute. Qed.

(** Options are taken in order: the same two options the other way round
    end the run as a usage error. *)
Example run_format_before_help :
  exit_status (run (scenario ["-f"; "xml"; "-h"] None true)) = Some 1%Z
  /\ (ending_of <$> (trace <$> final_world (run (scenario ["-f"; "xml"; "-h"] None true))))
     = Some UsageErrorExit.
Proof. by vm_compute. Qed.

(** Run through sudo, the identity is the acting user's. *)
Example run_as_acting_user :
  (pw ∘ sudo_user <$> final_world (run (scenario_sudo ["policy"] "alice")))
  = Some (Some alice).
Proof. by vm_compute. Qed.

(* ===================================================================== *)
(** * Further properties of cvtsudoers.c *)
(* ===================================================================== *)

(** ** The first option that is not taken decides *)

Lemma final_output_cons x pre o :
  final_output (x :: pre) o = final_output pre (final_output [x] o).
Proof. destruct x as [ch [v|]]; reflexivity. Qed.

Lemma final_format_cons x pre f :
  final_format (x :: pre) f = final_format pre (final_format [x] f).
Proof. destruct x as [ch [v|]]; reflexivity. Qed.

(** After accepted options the loop is at the next option with the values
    they left; if the [switch] ends the run there, so does the loop. *)
Lemma arg_loop_first_exit s ch a post ops c : forall pre g fuel o f w w',
  options_of g (pre ++ (ch, a) :: post) ops ->
  Forall (fun x => accepted x = true) pre ->
  (Getopt.budget g < fuel)%nat ->
  Ascii.eqb ch "?"%char = false ->
  arg_case s ch a (final_output pre o) (final_format pre f) w = Exit c w' ->
  arg_loop s fuel g o f w = Exit c w'.
Proof.
  induction pre as [|x pre IH]; intros g fuel o f w w' Hrun Hacc Hb Hq Hc; simpl in Hrun.
  - inversion Hrun as [|g0 g' ch0 a0 opts ops0 Hg Hrest]; subst.
    destruct fuel as [|fuel]; [lia|]. rewrite (arg_loop_opt s fuel g g' ch a o f w Hg), Hq.
    unfold bind. simpl in Hc. by rewrite Hc.
  - inversion Hrun as [|g0 g' ch0 a0 opts ops0 Hg Hrest]; subst.
    destruct fuel as [|fuel]; [lia|].
    pose proof (getopt_long_budget _ _ _ _ _ _ Hg) as Hlt.
    apply Forall_cons in Hacc as [Hx Hacc].
    rewrite (arg_loop_opt s fuel g g' ch0 a0 o f w Hg), (accepted_not_refused ch0 a0 Hx).
    unfold bind. rewrite (arg_case_accepted s ch0 a0 o f w Hx).
    rewrite final_output_cons, final_format_cons in Hc.
    apply (IH g' fuel _ _ w w' Hrest Hacc); [lia|exact Hq|exact Hc].
Qed.

(** The same for a whole run. *)
Lemma run_first_exit s pre ch a post ops c w' :
  startup_ok s ->
  options_of (Getopt.start (sys_argv s)) (pre ++ (ch, a) :: post) ops ->
  Forall (fun x => accepted x = true) pre ->
  Ascii.eqb ch "?"%char = false ->
  arg_case s ch a (final_output pre "-") (final_format pre "JSON") (started s) = Exit c w' ->
  run s = Exit c w'.
Proof.
  intros Hs Hrun Hacc Hq Hc. rewrite (run_started s Hs).
  apply bind_exit_eq. unfold main_args. apply bind_exit_eq.
  apply (arg_loop_first_exit s ch a post ops c pre _ _ _ _ _ _ Hrun Hacc);
    [lia|exact Hq|exact Hc].
Qed.

(** X1: -h/--help after options that are all taken ends the run with
    status 0: the banner, the usage line and the option list are written to
    the standard output, in this order and nothing else, and neither the
    state nor anything after -h in the argument vector matters. *)
Theorem help_ends_run
    (s : sys) (pre post : list (ascii * option string)) (a : option string)
    (ops : list string) :
  startup_ok s ->
  options_of (Getopt.start (sys_argv s)) (pre ++ ("h"%char, a) :: post) ops ->
  Forall (fun x => accepted x = true) pre ->
  run s = Exit 0 (with_trace (help_events (progname (started s))) (started s)).
Proof.
  intros Hs Hrun Hacc.
  apply (run_first_exit s pre "h"%char a post ops 0 _ Hs Hrun Hacc eq_refl).
  reflexivity.
Qed.

Lemma help_ends_run_witness :
  run (scenario ["-o"; "out"; "--help"; "-f"; "xml"; "a"; "b"] None true)
  = Exit 0 (with_trace (help_events "cvtsudoers")
              (started (scenario ["-o"; "out"; "--help"; "-f"; "xml"; "a"; "b"] None true))).
Proof.
  apply (help_ends_run (scenario ["-o"; "out"; "--help"; "-f"; "xml"; "a"; "b"] None true)
           [("o"%char, Some "out")] [("f"%char, Some "xml")] None ["a"; "b"]).
  - repeat split; discriminate.
  - read_options.
  - repeat constructor.
Defined.

(** X2: -V/--version after options that are all taken ends the run with
    status 0: two lines are written to the standard output, the program
    name with the package version and with the grammar version, and nothing
    else happens. *)
Theorem version_ends_run
    (s : sys) (pre post : list (ascii * option string)) (a : option string)
    (ops : list string) :
  startup_ok s ->
  options_of (Getopt.start (sys_argv s)) (pre ++ ("V"%char, a) :: post) ops ->
  Forall (fun x => accepted x = true) pre ->
  run s = Exit 0 (with_trace (version_events s (progname (started s))) (started s)).
Proof.
  intros Hs Hrun Hacc.
  apply (run_first_exit s pre "V"%char a post ops 0 _ Hs Hrun Hacc eq_refl).
  reflexivity.
Qed.

Lemma version_ends_run_witness :
  run (scenario ["-f"; "JSON"; "-V"; "-h"] None true)
  = Exit 0 (with_trace
              [Stdout ("cvtsudoers version 1.8.23" +:+ nl);
               Stdout ("cvtsudoers grammar version 46" +:+ nl)]
              (started (scenario ["-f"; "JSON"; "-V"; "-h"] None true))).
Proof.
  apply (version_ends_run (scenario ["-f"; "JSON"; "-V"; "-h"] None true)
           [("f"%char, Some "JSON")] [("h"%char, None)] None []).
  - repeat split; discriminate.
  - read_options.
  - repeat constructor.
Defined.

Lemma arg_case_unknown s ch a o f w :
  known_option ch = false ->
  arg_case s ch a o f w = Exit 1 (log (Stderr (usage_text (progname w))) w).
Proof.
  unfold known_option. intros H.
  apply orb_false_elim in H as [H HV]. apply orb_false_elim in H as [H Ho].
  apply orb_false_elim in H as [Hf Hh].
  unfold arg_case. by rewrite Hf, Hh, Ho, HV.
Qed.

(** After accepted options, an element getopt_long refuses ends the run:
    its message, then the usage line. *)
Lemma arg_loop_first_refused s a post ops : forall pre g fuel o f w,
  options_of g (pre ++ ("?"%char, a) :: post) ops ->
  Forall (fun x => accepted x = true) pre ->
  (Getopt.budget g < fuel)%nat ->
  exists g1,
    arg_loop s fuel g o f w =
      Exit 1 (log (Stderr (usage_text (progname w)))
                  (log (Stderr (sys_getopt_message s g1)) w)).
Proof.
  induction pre as [|x pre IH]; intros g fuel o f w Hrun Hacc Hb; simpl in Hrun.
  - inversion Hrun as [|g0 g' ch0 a0 opts ops0 Hg Hrest]; subst.
    destruct fuel as [|fuel]; [lia|]. exists g.
    by rewrite (arg_loop_opt s fuel g g' _ _ o f w Hg).
  - inversion Hrun as [|g0 g' ch0 a0 opts ops0 Hg Hrest]; subst.
    destruct fuel as [|fuel]; [lia|].
    pose proof (getopt_long_budget _ _ _ _ _ _ Hg) as Hlt.
    apply Forall_cons in Hacc as [Hx Hacc].
    rewrite (arg_loop_opt s fuel g g' ch0 a0 o f w Hg), (accepted_not_refused ch0 a0 Hx).
    unfold bind. rewrite (arg_case_accepted s ch0 a0 o f w Hx).
    apply (IH g' fuel _ _ w Hrest Hacc). lia.
Qed.

(** X3: an element of the argument vector that getopt_long refuses (an
    unknown option, a missing argument, an argument given to -h or -V),
    after options that are all taken, ends the run with status 1.  Two
    things are written, both to the standard error: the message of
    getopt_long, whose wording is the C library's, and then the usage
    line. *)
Theorem unknown_option_is_usage_error
    (s : sys) (pre post : list (ascii * option string))
    (a : option string) (ops : list string) :
  startup_ok s ->
  options_of (Getopt.start (sys_argv s)) (pre ++ ("?"%char, a) :: post) ops ->
  Forall (fun x => accepted x = true) pre ->
  exists g,
    run s = Exit 1 (with_trace [Stderr (sys_getopt_message s g);
                                Stderr (usage_text (progname (started s)))]
                               (started s)).
Proof.
  intros Hs Hrun Hacc.
  destruct (arg_loop_first_refused s a post ops pre _
              (S (Getopt.budget (Getopt.start (sys_argv s)))) "-" "JSON" (started s)
              Hrun Hacc) as [g Hr]; [lia|].
  exists g. rewrite (run_started s Hs).
  apply bind_exit_eq. unfold main_args. by apply bind_exit_eq.
Qed.

Lemma unknown_option_is_usage_error_witness :
  (exists g,
     run (scenario ["-o"; "out"; "-x"; "in"] None true)
     = Exit 1 (with_trace [Stderr (getopt_says g); Stderr (usage_text "cvtsudoers")]
                 (started (scenario ["-o"; "out"; "-x"; "in"] None true))))
  /\ (exists g,
        run (scenario ["in"; "-o"] None true)
        = Exit 1 (with_trace [Stderr (getopt_says g); Stderr (usage_text "cvtsudoers")]
                    (started (scenario ["in"; "-o"] None true)))).
Proof.
  split.
  - apply (unknown_option_is_usage_error (scenario ["-o"; "out"; "-x"; "in"] None true)
             [("o"%char, Some "out")] [] None ["in"]).
    + repeat split; discriminate.
    + read_options.
    + repeat constructor.
  - apply (unknown_option_is_usage_error (scenario ["in"; "-o"] None true)
             [] [] None ["in"]).
    + repeat split; discriminate.
    + read_options.
    + repeat constructor.
Defined.

(** ** [get_hostname] in any state *)

(** The three ways [get_hostname] returns. *)
Lemma get_hostname_ret_inv s w w' :
  get_hostname s w = Ret tt w' ->
  (sys_hostname s = None
   /\ w' = with_hosts (Lit "localhost") (Lit "localhost") w)
  \/ (exists h,
        sys_hostname s = Some h /\ strchr (buffer_of h) "."%char = None
        /\ w' = with_hosts (Ref (brk w)) (Ref (brk w))
                  (with_heap (<[brk w := buffer_of h]> (heap w)) (S (brk w)) w))
  \/ (exists h i,
        sys_hostname s = Some h /\ strchr (buffer_of h) "."%char = Some i
        /\ w' = with_hosts (Ref (brk w)) (Ref (S (brk w)))
                  (with_heap (<[S (brk w) := cstr (<[i := NUL]> (buffer_of h)) ++ [NUL]]>
                                (<[brk w := buffer_of h]> (heap w)))
                             (S (S (brk w))) w)).
Proof.
  destruct (sys_hostname s) as [h|] eqn:Hh.
  - destruct (strchr (buffer_of h) "."%char) as [i|] eqn:Hi.
    + rewrite (get_hostname_dotted s w h i Hh Hi).
      destruct (sys_strdup_ok s); [|discriminate].
      intros [= <-]. right; right. by exists h, i.
    + rewrite (get_hostname_undotted s w h Hh Hi).
      intros [= <-]. right; left. by exists h.
  - rewrite (get_hostname_failed s w Hh). intros [= <-]. by left.
Qed.

(** X6: whenever [get_hostname] returns, whatever the lookup gave, the
    run-host members are the very pointers the host members are, neither
    host member is NULL, and both point to a string that can be read. *)
Theorem get_hostname_sets_all_four (s : sys) (w w' : world) :
  get_hostname s w = Ret tt w' ->
  user_runhost w' = user_host w'
  /\ user_srunhost w' = user_shost w'
  /\ user_host w' <> NULL
  /\ user_shost w' <> NULL
  /\ is_Some (string_at w' (user_host w'))
  /\ is_Some (string_at w' (user_shost w')).
Proof.
  intros H.
  destruct (get_hostname_ret_inv s w w' H)
    as [(_ & ->)|[(h & _ & _ & ->)|(h & i & _ & _ & ->)]];
    destruct w as [hp b u pn tr]; destruct u as [p0 ho sh rh srh c cb];
    cbv [string_at user_host user_shost user_runhost user_srunhost with_hosts with_heap
         with_sudo_user sudo_user heap brk host shost runhost srunhost
         upd_host upd_shost upd_runhost upd_srunhost].
  - by repeat split.
  - rewrite lookup_insert_eq. by repeat split.
  - rewrite lookup_insert_eq.
    rewrite lookup_insert_ne by lia. rewrite lookup_insert_eq. by repeat split.
Qed.

Lemma get_hostname_sets_all_four_witness :
  exists w',
    get_hostname (scenario [] (Some "foo.example.com") true) world0 = Ret tt w'
    /\ user_runhost w' = user_host w'
    /\ user_srunhost w' = user_shost w'
    /\ user_host w' <> NULL
    /\ user_shost w' <> NULL
    /\ is_Some (string_at w' (user_host w'))
    /\ is_Some (string_at w' (user_shost w')).
Proof.
  eassert (E : get_hostname (scenario [] (Some "foo.example.com") true) world0
               = Ret tt _) by (vm_compute; reflexivity).
  eexists. split; [exact E|].
  exact (get_hostname_sets_all_four _ _ _ E).
Defined.

(** X7: [get_hostname] touches nothing but the four host members and
    memory of its own: when it returns, the passwd record, the command
    members, the program name and the trace are as before, every buffer
    that was allocated is unchanged, and at most two buffers were added. *)
Theorem get_hostname_frame (s : sys) (w w' : world) :
  get_hostname s w = Ret tt w' ->
  pw (sudo_user w') = pw (sudo_user w)
  /\ cmnd (sudo_user w') = cmnd (sudo_user w)
  /\ cmnd_base (sudo_user w') = cmnd_base (sudo_user w)
  /\ progname w' = progname w
  /\ trace w' = trace w
  /\ (forall l, (l < brk w)%nat -> heap w' !! l = heap w !! l)
  /\ (brk w <= brk w' <= S (S (brk w)))%nat.
Proof.
  intros H.
  destruct (get_hostname_ret_inv s w w' H)
    as [(_ & ->)|[(h & _ & _ & ->)|(h & i & _ & _ & ->)]];
    destruct w as [hp b u pn tr]; destruct u as [p0 ho sh rh srh c cb];
    cbv [with_hosts with_heap with_sudo_user sudo_user heap brk progname trace
         pw cmnd cmnd_base upd_host upd_shost upd_runhost upd_srunhost].
  - repeat split; lia.
  - repeat split; try lia. intros l Hl. by rewrite lookup_insert_ne by lia.
  - repeat split; try lia. intros l Hl. by rewrite !lookup_insert_ne by lia.
Qed.

Lemma get_hostname_frame_witness :
  exists w',
    get_hostname (scenario [] (Some "foo.example.com") true)
                 (with_identity (Some alice) world0) = Ret tt w'
    /\ pw (sudo_user w') = Some alice
    /\ trace w' = []
    /\ (brk w' <= 2)%nat.
Proof.
  eassert (E : get_hostname (scenario [] (Some "foo.example.com") true)
                 (with_identity (Some alice) world0) = Ret tt _)
    by (vm_compute; reflexivity).
  eexists. split; [exact E|].
  pose proof (get_hostname_frame _ _ _ E) as (H1 & _ & _ & _ & H2 & _ & _ & H3).
  split; [exact H1|]. split; [exact H2|exact H3].
Defined.

(** X8: [get_hostname] is memory safe in every state and for every answer
    of the lookup and of the allocator.  A read through a null or dangling
    pointer, a scan by [strchr] or [strdup] that finds no terminator in the
    buffer, and a write outside a buffer or to a literal are all faults of
    the model; [get_hostname] commits none: the name it scans ends in its
    terminator, [p] points into it, and the copy is taken of a buffer that
    [*p = 0] has just terminated.  So it returns, or ends the run with
    status 1. *)
Theorem get_hostname_is_memory_safe (s : sys) (w : world) :
  get_hostname s w <> Fault
  /\ ((exists w', get_hostname s w = Ret tt w')
      \/ (exists w', get_hostname s w = Exit 1 w')).
Proof.
  destruct (get_hostname_cases s w) as [(w' & Hr & _)|(_ & w' & Hr & _)]; rewrite Hr.
  - split; [discriminate|]. left. by exists w'.
  - split; [discriminate|]. right. by exists w'.
Qed.

Lemma short_of_is_dotless h : dotless (short_of h).
Proof.
  unfold dotless. induction h as [|x r IH]; simpl; [reflexivity|].
  destruct (Ascii.eqb x "."%char) eqn:E; simpl; [reflexivity|]. by rewrite E, IH.
Qed.

Lemma short_of_splits h :
  h = short_of h \/ exists d, h = short_of h +:+ String "."%char d.
Proof.
  induction h as [|x r IH]; simpl; [by left|].
  destruct (Ascii.eqb x "."%char) eqn:E.
  - apply Ascii.eqb_eq in E. subst x. right. by exists r.
  - destruct IH as [IH|[d IH]].
    + left. by f_equal.
    + right. exists d.
      change (String x r = String x (short_of r +:+ String "."%char d)). by f_equal.
Qed.

(** X9: for a looked-up name [h] (a C string), the short host
    [get_hostname] leaves holds no [.] and is [h] itself or what stands
    before a [.] in [h]; and it shares the buffer of the full host exactly
    when [h] has no [.], being a copy of its own otherwise. *)
Theorem short_host_is_dot_free_prefix (s : sys) (w w' : world) (h : string) :
  sys_hostname s = Some h ->
  nul_free h ->
  get_hostname s w = Ret tt w' ->
  (exists sh,
      string_at w' (user_shost w') = Some sh
      /\ dotless sh
      /\ (h = sh \/ exists d, h = sh +:+ String "."%char d))
  /\ (user_shost w' = user_host w' <-> dotless h).
Proof.
  intros Hh Hn H.
  destruct (get_hostname_ret_inv s w w' H)
    as [(Hh' & _)|[(h' & Hh' & Hi & ->)|(h' & i & Hh' & Hi & ->)]]; [congruence| |].
  - assert (h' = h) as -> by congruence.
    pose proof (strchr_none_dotless h Hn Hi) as Hd.
    split.
    + exists h. split; [|split; [exact Hd|by left]].
      destruct w as [hp b u pn tr]. destruct u as [p0 ho sh rh srh c cb].
      cbv [string_at user_shost with_hosts with_heap with_sudo_user sudo_user heap brk
           shost upd_host upd_shost upd_runhost upd_srunhost].
      rewrite lookup_insert_eq. simpl. by rewrite (string_of_buffer_of h Hn).
    + split; [done|]. intros _.
      by destruct w as [hp b u pn tr]; destruct u.
  - assert (h' = h) as -> by congruence.
    split.
    + exists (short_of h).
      split; [exact (proj2 (hostname_split_state w h i Hn Hi))|].
      split; [apply short_of_is_dotless|apply short_of_splits].
    + split.
      * destruct w as [hp b u pn tr]; destruct u.
        cbv [user_shost user_host with_hosts with_heap with_sudo_user sudo_user brk
             host shost upd_host upd_shost upd_runhost upd_srunhost].
        intros [= Hb]. lia.
      * intros Hd. rewrite (strchr_dotless h Hd) in Hi. discriminate.
Qed.

Lemma short_host_is_dot_free_prefix_witness :
  exists w',
    get_hostname (scenario [] (Some "foo.example.com") true) world0 = Ret tt w'
    /\ (exists sh,
          string_at w' (user_shost w') = Some sh
          /\ dotless sh
          /\ ("foo.example.com" = sh \/ exists d, "foo.example.com" = sh +:+ String "."%char d))
    /\ (user_shost w' = user_host w' <-> dotless "foo.example.com").
Proof.
  eassert (E : get_hostname (scenario [] (Some "foo.example.com") true) world0
               = Ret tt _) by (vm_compute; reflexivity).
  eexists. split; [exact E|].
  exact (short_host_is_dot_free_prefix (scenario [] (Some "foo.example.com") true)
           _ _ "foo.example.com" eq_refl eq_refl E).
Defined.

(** ** The environment *)

(** Runs that agree on lines 151-162 agree altogether. *)
Lemma run_SUDO_USER_congr s v1 v2 :
  (forall w, main_sudo_user (with_SUDO_USER v1 s) w = main_sudo_user (with_SUDO_USER v2 s) w) ->
  run (with_SUDO_USER v1 s) = run (with_SUDO_USER v2 s).
Proof.
  intros Hsu. rewrite !run_eq.
  change (main_startup (with_SUDO_USER v1 s)) with (main_startup s).
  change (main_startup (with_SUDO_USER v2 s)) with (main_startup s).
  destruct (main_startup s EXIT_FAILURE world0) as [[] w1|c w1| |]; try reflexivity.
  unfold bind at 1 4. rewrite !main_args_SUDO_USER.
  destruct (main_args s "-" "-" "JSON" w1) as [[[i o] f] w2|c w2| |]; try reflexivity.
  unfold bind at 1 3. rewrite Hsu.
  destruct (main_sudo_user (with_SUDO_USER v2 s) w2) as [[] w3|c w3| |]; reflexivity.
Qed.

(** X10: an empty SUDO_USER is the same as none.  Whatever the effective
    user id, a run with the variable set to the empty string and a run
    without the variable do the same in every respect, and resolve the
    record of the real user id. *)
Theorem empty_SUDO_USER_is_unset (s : sys) :
  run (with_SUDO_USER (Some "") s) = run (with_SUDO_USER None s)
  /\ spec_identity (with_SUDO_USER (Some "") s) = sys_getpwuid s (sys_uid s)
  /\ spec_identity (with_SUDO_USER None s) = sys_getpwuid s (sys_uid s).
Proof.
  split; [|split].
  - apply run_SUDO_USER_congr. intros w.
    unfold main_sudo_user, getenv, geteuid. simpl.
    by rewrite lookup_insert_eq, lookup_delete_eq.
  - unfold spec_identity, acting_user, elevated. simpl.
    rewrite lookup_insert_eq. simpl. by destruct (sys_euid s =? 0)%Z.
  - unfold spec_identity, acting_user, elevated. simpl.
    rewrite lookup_delete_eq. by destruct (sys_euid s =? 0)%Z.
Qed.

(** ** From option handling to the exporter *)

(** Lines 143-149 after an option loop that returned, exactly. *)
Lemma main_args_after_loop s g i o f o' f' w :
  arg_loop s (S (Getopt.budget (Getopt.start (sys_argv s))))
           (Getopt.start (sys_argv s)) o f w = Ret (g, o', f') w ->
  main_args s i o f w =
    match Getopt.operands g with
    | [] => Ret (i, o', f') w
    | [x] => Ret (x, o', f') w
    | _ :: _ :: _ => Exit 1 (log (Stderr (usage_text (progname w))) w)
    end.
Proof.
  intros Hr. unfold main_args. unfold bind at 1. rewrite Hr. cbv beta iota zeta.
  destruct (Getopt.operands g) as [|x [|y more]]; try reflexivity.
  assert ((0 <? Z.of_nat (length (x :: y :: more)))%Z = true) as ->
    by (apply Z.ltb_lt; simpl; lia).
  assert ((1 <? Z.of_nat (length (x :: y :: more)))%Z = true) as ->
    by (apply Z.ltb_lt; simpl; lia).
  reflexivity.
Qed.

(** Lines 151-173 from a state in which [sudo_user.pw] is null. *)
Lemma main_context_eq s i o w :
  pw (sudo_user w) = None ->
  (main_sudo_user s ;; get_hostname s ;; main_export s i o) w =
    match spec_identity s with
    | None =>
        Exit 1 (log (Fatalx "you do not exist in the passwd database")
                    (with_identity None w))
    | Some p =>
        match get_hostname s (with_identity (Some p) w) with
        | Ret _ w1 =>
            if sys_init_defaults s then
              Exit (if sys_export s i o then 0 else 1)
                   (log (Export i o (sys_export s i o)) w1)
            else
              Exit 1 (log (Fatalx "unable to initialize sudoers default values") w1)
        | Exit c w1 => Exit c w1
        | Fault => Fault
        | OutOfFuel => OutOfFuel
        end
    end.
Proof.
  intros Hpw. unfold bind at 1. rewrite (identity_resolution_lines s w Hpw).
  destruct (spec_identity s) as [p|]; [|reflexivity].
  unfold bind at 1.
  destruct (get_hostname s (with_identity (Some p) w)) as [[] w1|c w1| |]; try reflexivity.
  unfold main_export, init_defaults, export_sudoers.
  destruct (sys_init_defaults s); run_block; simpl; [|reflexivity].
  by destruct (sys_export s i o).
Qed.

Lemma get_hostname_resolvable s w :
  hostname_resolvable s ->
  exists w', get_hostname s w = Ret tt w'.
Proof.
  intros [Hh|[(h & Hh & Hd)|Hm]].
  - rewrite (get_hostname_failed s w Hh). by eexists.
  - rewrite (get_hostname_undotted s w h Hh (strchr_dotless h Hd)). by eexists.
  - destruct (get_hostname_cases s w) as [(w' & Hr & _)|(Hm' & _)]; [by exists w'|congruence].
Qed.

(** What the exporter finds in [sudo_user] after identity and host name
    resolution. *)
Lemma get_hostname_context s p w0 w1 :
  get_hostname s (with_identity (Some p) w0) = Ret tt w1 ->
  pw (sudo_user w1) = Some p
  /\ cmnd (sudo_user w1) = Lit ""
  /\ cmnd_base (sudo_user w1) = Lit ""
  /\ user_runhost w1 = user_host w1
  /\ user_srunhost w1 = user_shost w1
  /\ user_host w1 <> NULL
  /\ user_shost w1 <> NULL
  /\ trace w1 = trace w0.
Proof.
  intros H.
  destruct (get_hostname_ret_inv s _ w1 H)
    as [(_ & ->)|[(h & _ & _ & ->)|(h & i & _ & _ & ->)]];
    destruct w0 as [hp b u pn tr]; destruct u as [p0 ho sh rh srh c cb];
    by repeat split.
Qed.

(** X4: the conversion run.  When startup goes through, every option is
    taken, there is at most one operand, an identity can be resolved, the
    host name can be resolved and the defaults are initialised, the
    exporter is called, once and as the only thing the run lets see, with
    the operand (or "-") as input path and the value of the last -o (or
    "-") as output path; the exit status is 0 or 1 as it answers, and
    [sudo_user.pw] is then the resolved record. *)
Theorem conversion_run
    (s : sys) (opts : list (ascii * option string)) (ops : list string)
    (input : string) (p : passwd) :
  startup_ok s ->
  options_of (Getopt.start (sys_argv s)) opts ops ->
  Forall (fun x => accepted x = true) opts ->
  (ops = [input] \/ (ops = [] /\ input = "-")) ->
  spec_identity s = Some p ->
  hostname_resolvable s ->
  sys_init_defaults s = true ->
  exists w,
    run s = Exit (if sys_export s input (final_output opts "-") then 0 else 1) w
    /\ trace w = [Export input (final_output opts "-")
                         (sys_export s input (final_output opts "-"))]
    /\ pw (sudo_user w) = Some p.
Proof.
  intros Hs Hrun Hacc Hops Hid Hh Hd.
  pose proof (main_args_accepted s opts ops "-" "-" "JSON" (started s) Hrun Hacc) as Ha.
  assert (main_args s "-" "-" "JSON" (started s)
          = Ret (input, final_output opts "-", final_format opts "JSON") (started s)) as Hr
    by (destruct Hops as [->|[-> ->]]; exact Ha).
  rewrite (run_started s Hs), (bind_ret_eq _ _ _ _ _ Hr). cbv beta iota.
  rewrite (main_context_eq s _ _ (started s) eq_refl), Hid, Hd.
  destruct (get_hostname_resolvable s (with_identity (Some p) (started s)) Hh) as [w1 Hw1].
  rewrite Hw1.
  destruct (get_hostname_context s p _ w1 Hw1) as (Hpw & _ & _ & _ & _ & _ & _ & Ht).
  eexists. split; [reflexivity|]. split; [|exact Hpw].
  simpl. by rewrite Ht.
Qed.

Lemma conversion_run_witness :
  exists w,
    run (scenario ["-f"; "Json"; "-o"; "a.json"; "-o"; "b.json"; "policy"]
                  (Some "foo.example.com") false) = Exit 1 w
    /\ trace w = [Export "policy" "b.json" false]
    /\ pw (sudo_user w) = Some alice.
Proof.
  apply (conversion_run
           (scenario ["-f"; "Json"; "-o"; "a.json"; "-o"; "b.json"; "policy"]
                     (Some "foo.example.com") false)
           [("f"%char, Some "Json"); ("o"%char, Some "a.json"); ("o"%char, Some "b.json")]
           ["policy"] "policy" alice).
  - repeat split; discriminate.
  - read_options.
  - repeat constructor.
  - by left.
  - reflexivity.
  - right; right. reflexivity.
  - reflexivity.
Defined.

(** X11: what is settled when the exporter is called.  In every run whose
    trace holds a call of the exporter, startup went through, the defaults
    are initialised, [sudo_user.pw] is the record identity resolution
    names, the command members are the empty string, the host members are
    not NULL with the run-host members equal to them, and the exit status
    is 0 or 1 as the exporter answered. *)
Theorem exporter_sees_settled_context
    (s : sys) (c : Z) (w : world) (i o : string) (ok : bool) :
  run s = Exit c w ->
  In (Export i o ok) (trace w) ->
  startup_ok s
  /\ sys_init_defaults s = true
  /\ (exists p, spec_identity s = Some p /\ pw (sudo_user w) = Some p)
  /\ cmnd (sudo_user w) = Lit ""
  /\ cmnd_base (sudo_user w) = Lit ""
  /\ user_runhost w = user_host w
  /\ user_srunhost w = user_shost w
  /\ user_host w <> NULL
  /\ user_shost w <> NULL
  /\ ok = sys_export s i o
  /\ c = (if ok then EXIT_SUCCESS else EXIT_FAILURE).
Proof.
  rewrite run_eq, main_startup_eq. cbv zeta. fold (started s).
  destruct (sys_initlocale s) eqn:Hl; simpl.
  2: { intros [= <- <-] [H|[]]. discriminate. }
  destruct (sys_conf_read s =? -1)%Z eqn:Hc.
  { intros [= <- <-] []. }
  destruct (sys_debug_register s) eqn:Hdb; simpl.
  2: { intros [= <- <-] []. }
  assert (startup_ok s) as Hs by (split; [done|split; [by apply Z.eqb_neq|done]]).
  destruct (main_args_cases s "-" "-" "JSON" (started s))
    as [(i' & o' & f & Hr)|[(w' & evs & Hr & _ & Ht & Hne & _)|(w' & evs & Hr & _ & Ht & Hne & _)]].
  - rewrite (bind_ret_eq _ _ _ _ _ Hr). cbv beta iota.
    rewrite (main_context_eq s i' o' (started s) eq_refl).
    destruct (spec_identity s) as [p|].
    2: { intros [= <- <-] [H|[]]. discriminate. }
    destruct (get_hostname s (with_identity (Some p) (started s))) as [[] w1|c1 w1| |] eqn:Hh;
      try discriminate.
    + destruct (get_hostname_context s p _ w1 Hh)
        as (Hpw & Hcm & Hcb & Hrh & Hsrh & Hho & Hsh & Ht).
      destruct (sys_init_defaults s).
      * intros [= <- <-]. simpl. rewrite Ht. simpl.
        intros [[= <- <- <-]|[]].
        split; [exact Hs|]. split; [reflexivity|]. split; [by exists p|].
        repeat split; assumption.
      * intros [= <- <-]. simpl. rewrite Ht. simpl. intros [H|[]]. discriminate.
    + destruct (get_hostname_cases s (with_identity (Some p) (started s)))
        as [(w2 & Hr2 & _)|(_ & w2 & Hr2 & Ht2)]; [congruence|].
      rewrite Hh in Hr2. injection Hr2 as -> ->.
      intros [= <- <-]. rewrite Ht2. simpl. intros [H|[]]. discriminate.
  - rewrite (bind_exit_eq _ _ _ _ _ Hr). intros [= <- <-]. rewrite Ht. simpl.
    intros Hin. by apply never_exported_In in Hin.
  - rewrite (bind_exit_eq _ _ _ _ _ Hr). intros [= <- <-]. rewrite Ht. simpl.
    intros Hin. by apply never_exported_In in Hin.
Qed.

Lemma exporter_sees_settled_context_witness :
  exists w,
    run (scenario ["policy"] (Some "foo.example.com") true) = Exit 0 w
    /\ In (Export "policy" "-" true) (trace w)
    /\ (exists p, spec_identity (scenario ["policy"] (Some "foo.example.com") true) = Some p
                  /\ pw (sudo_user w) = Some p)
    /\ user_runhost w = user_host w
    /\ user_host w <> NULL.
Proof.
  eassert (E : run (scenario ["policy"] (Some "foo.example.com") true) = Exit 0 _)
    by (vm_compute; reflexivity).
  eexists. split; [exact E|]. split; [by left|].
  pose proof (exporter_sees_settled_context _ 0 _ "policy" "-" true
                E (or_introl eq_refl))
    as (_ & _ & H1 & _ & _ & H2 & _ & H3 & _).
  split; [exact H1|]. split; [exact H2|exact H3].
Defined.

(** ** The exit status *)

(** Every argument vector has its options and operands: getopt_long comes
    to the end of it. *)
Lemma options_of_total g : exists opts ops, options_of g opts ops.
Proof.
  remember (Getopt.budget g) as n eqn:Hn. revert g Hn.
  induction n as [n IH] using lt_wf_ind. intros g ->.
  destruct (Getopt.getopt_long short_opts long_opts g) as [[ch a|] g'] eqn:Hg.
  - pose proof (getopt_long_budget _ _ _ _ _ _ Hg) as Hlt.
    destruct (IH _ Hlt g' eq_refl) as (opts & ops & H).
    exists ((ch, a) :: opts), ops. by eapply options_opt.
  - exists [], (Getopt.operands g'). by apply options_end.
Qed.

(** The first option that is not accepted, and the accepted ones before. *)
Lemma find_first_stop opts x :
  List.find (fun y => negb (accepted y)) opts = Some x ->
  exists pre post,
    opts = pre ++ x :: post
    /\ Forall (fun y => accepted y = true) pre
    /\ accepted x = false.
Proof.
  induction opts as [|y opts IH]; simpl; [discriminate|].
  destruct (accepted y) eqn:Hy; simpl.
  - intros H. destruct (IH H) as (pre & post & -> & Hpre & Hx).
    exists (y :: pre), post. split; [reflexivity|]. split; [by constructor|exact Hx].
  - intros [= <-]. exists [], opts. split; [reflexivity|]. split; [constructor|exact Hy].
Qed.

Lemma find_no_stop opts :
  List.find (fun y => negb (accepted y)) opts = None ->
  Forall (fun y => accepted y = true) opts.
Proof.
  induction opts as [|y opts IH]; simpl; [constructor|].
  destruct (accepted y) eqn:Hy; simpl; [|discriminate].
  intros H. constructor; [exact Hy|by apply IH].
Qed.

(** An option with a C string for its argument that is neither accepted
    nor help or version takes the [switch] to [usage(1)]. *)
Lemma arg_case_not_accepted s ch a o f w :
  accepted (ch, a) = false ->
  informational (ch, a) = false ->
  with_optarg ch a ->
  (forall v, a = Some v -> nul_free v) ->
  usage_error_exit w (arg_case s ch a o f w).
Proof.
  intros Hacc Hi Ha Hn.
  destruct (arg_case_other s ch a o f w Hi Ha) as [(o' & f' & Hr)|H]; [|exact H].
  exfalso. unfold informational in Hi. simpl in Hi.
  apply orb_false_elim in Hi as [Hh HV].
  unfold accepted in Hacc. unfold arg_case in Hr.
  destruct (Ascii.eqb ch "f"%char) eqn:Ef.
  - destruct a as [v|]; [|discriminate].
    rewrite andb_true_l in Hacc. apply orb_false_elim in Hacc as [_ Hm].
    rewrite (no_ci_match_json v (Hn v eq_refl) Hm) in Hr. discriminate.
  - rewrite Hh in Hr. destruct (Ascii.eqb ch "o"%char) eqn:Eo.
    + destruct a as [v|]; discriminate.
    + rewrite HV in Hr. discriminate.
Qed.

(** After accepted options, the first option that is not accepted ends the
    run in the loop: with status 0 for help or version, as a usage error
    otherwise. *)
Lemma arg_loop_first_stop s ch a post ops : forall pre g fuel o f w,
  options_of g (pre ++ (ch, a) :: post) ops ->
  Forall (fun y => accepted y = true) pre ->
  accepted (ch, a) = false ->
  (forall v, a = Some v -> nul_free v) ->
  (Getopt.budget g < fuel)%nat ->
  if informational (ch, a) then info_exit w (arg_loop s fuel g o f w)
  else usage_error_exit w (arg_loop s fuel g o f w).
Proof.
  induction pre as [|x pre IH]; intros g fuel o f w Hrun Hacc Hx Hn Hb; simpl in Hrun.
  - inversion Hrun as [|g0 g' ch0 a0 opts ops0 Hg Hrest]; subst.
    destruct fuel as [|fuel]; [lia|].
    pose proof (getopt_long_optarg _ _ _ _ Hg) as Ha.
    rewrite (arg_loop_opt s fuel g g' ch a o f w Hg).
    destruct (Ascii.eqb ch "?"%char) eqn:Hq.
    { apply Ascii.eqb_eq in Hq. subst ch. apply refused_usage_error_exit. }
    destruct (informational (ch, a)) eqn:Hi.
    + destruct (arg_case_informational s ch a o f w Hi) as (w' & evs & Hr & H).
      exists w', evs. split; [|exact H]. by apply bind_exit_eq.
    + destruct (arg_case_not_accepted s ch a o f w Hx Hi Ha Hn) as (w' & evs & Hr & H).
      exists w', evs. split; [|exact H]. by apply bind_exit_eq.
  - inversion Hrun as [|g0 g' ch0 a0 opts ops0 Hg Hrest]; subst.
    destruct fuel as [|fuel]; [lia|].
    pose proof (getopt_long_budget _ _ _ _ _ _ Hg) as Hlt.
    apply Forall_cons in Hacc as [Hx0 Hacc].
    rewrite (arg_loop_opt s fuel g g' ch0 a0 o f w Hg), (accepted_not_refused ch0 a0 Hx0).
    unfold bind. rewrite (arg_case_accepted s ch0 a0 o f w Hx0).
    apply (IH g' fuel _ _ w Hrest Hacc Hx Hn). lia.
Qed.

(** The host name of a C string: the copy of the short name fails, with
    the fatal message, or [get_hostname] returns and writes nothing. *)
Lemma get_hostname_copy s w :
  (forall h, sys_hostname s = Some h -> nul_free h) ->
  if copy_fails s then
    exists w', get_hostname s w = Exit 1 w'
               /\ trace w' = trace w ++ [Fatalx "get_hostname: unable to allocate memory"]
  else
    exists w', get_hostname s w = Ret tt w' /\ trace w' = trace w.
Proof.
  intros Hn. unfold copy_fails.
  destruct (sys_hostname s) as [h|] eqn:Hh.
  - destruct (strchr (buffer_of h) "."%char) as [i|] eqn:Hi.
    + assert (occurs "."%char h = true) as ->.
      { destruct (occurs "."%char h) eqn:Ho; [reflexivity|].
        rewrite (strchr_dotless h Ho) in Hi. discriminate. }
      rewrite (get_hostname_dotted s w h i Hh Hi).
      destruct (sys_strdup_ok s); simpl; by eexists.
    + rewrite (strchr_none_dotless h (Hn h eq_refl) Hi). simpl.
      rewrite (get_hostname_undotted s w h Hh Hi). by eexists.
  - rewrite (get_hostname_failed s w Hh). by eexists.
Qed.

(** Identity, host name, defaults and exporter, lines 151-173, after
    option handling that wrote nothing. *)
Lemma main_context_cause s opts ops w :
  pw (sudo_user w) = None ->
  trace w = [] ->
  (forall h, sys_hostname s = Some h -> nul_free h) ->
  exists c w',
    c = match spec_identity s with
        | None => Unresolvable_identity
        | Some _ =>
            if copy_fails s then Allocation_failure
            else if negb (sys_init_defaults s) then Defaults_failure
            else Conversion (sys_export s (input_of ops) (final_output opts "-"))
        end
    /\ (main_sudo_user s ;; get_hostname s ;;
        main_export s (input_of ops) (final_output opts "-")) w
       = Exit (status_of (ending_for c)) w'
    /\ ending_of (trace w') = ending_for c
    /\ trace_for s opts ops c (trace w').
Proof.
  intros Hpw Ht Hhost. rewrite (main_context_eq s _ _ w Hpw).
  destruct (spec_identity s) as [p|].
  2: { eexists _, _. split; [reflexivity|]. split; [reflexivity|].
       simpl. rewrite Ht. by split. }
  pose proof (get_hostname_copy s (with_identity (Some p) w) Hhost) as Hc.
  destruct (copy_fails s).
  { destruct Hc as (w1 & Hr1 & Ht1). rewrite Hr1.
    eexists _, w1. split; [reflexivity|]. split; [reflexivity|].
    rewrite Ht1. simpl. rewrite Ht. split; [reflexivity|by right]. }
  destruct Hc as (w1 & Hr1 & Ht1). rewrite Hr1.
  simpl in Ht1. rewrite Ht in Ht1.
  destruct (sys_init_defaults s); simpl.
  2: { eexists _, _. split; [reflexivity|]. split; [reflexivity|].
       simpl. rewrite Ht1. by split. }
  eexists _, (log (Export (input_of ops) (final_output opts "-")
                          (sys_export s (input_of ops) (final_output opts "-"))) w1).
  split; [reflexivity|].
  split; [by destruct (sys_export s (input_of ops) (final_output opts "-"))|].
  simpl. rewrite Ht1. simpl.
  split; [by destruct (sys_export s (input_of ops) (final_output opts "-"))|].
  by split.
Qed.

(** C5: the exit status tells why the run ended.  For the options and
    operands of the argument vector, the run ends on the cause the pipeline
    of the specification names, with status 0 for help, version and an
    exporter that answers true, and status 1 for a usage error, for each of
    the fatal configuration errors (no identity, defaults not initialised,
    no memory during setup), for a failed setup of sudo.conf or the debug
    subsystem, and for an exporter that answers false.  In the normal
    pipeline the exporter is called, that call is all the run lets see, and
    the status mirrors its answer. *)
Theorem exit_status_mirrors_outcome
    (s : sys) (opts : list (ascii * option string)) (ops : list string) :
  options_of (Getopt.start (sys_argv s)) opts ops ->
  c_strings s opts ->
  exists w,
    run s = Exit (status_of (ending_for (cause_of s opts ops))) w
    /\ ending_of (trace w) = ending_for (cause_of s opts ops)
    /\ trace_for s opts ops (cause_of s opts ops) (trace w)
    /\ (status_of (ending_for (cause_of s opts ops)) = 0%Z
        <-> cause_of s opts ops = Help_or_version
            \/ cause_of s opts ops = Conversion true).
Proof.
  intros Hrun [Hhost Hargs].
  assert (forall c, status_of (ending_for c) = 0%Z
                    <-> c = Help_or_version \/ c = Conversion true) as Hzero.
  { intros [| | | | | |[]]; simpl; split; try discriminate; try tauto;
      intros [H|H]; discriminate. }
  cut (exists w,
         run s = Exit (status_of (ending_for (cause_of s opts ops))) w
         /\ ending_of (trace w) = ending_for (cause_of s opts ops)
         /\ trace_for s opts ops (cause_of s opts ops) (trace w)).
  { intros (w & H1 & H2 & H3). exists w. repeat split; try assumption; apply Hzero. }
  unfold cause_of. rewrite run_eq, main_startup_eq. cbv zeta. fold (started s).
  destruct (sys_initlocale s); simpl.
  2: { eexists. split; [reflexivity|]. split; [reflexivity|]. by left. }
  destruct (sys_conf_read s =? -1)%Z; simpl.
  { eexists. split; [reflexivity|]. by split. }
  destruct (sys_debug_register s); simpl.
  2: { eexists. split; [reflexivity|]. by split. }
  destruct (List.find (fun x => negb (accepted x)) opts) as [[ch a]|] eqn:Hfind.
  - (* an option that is not accepted ends the run in the loop *)
    destruct (find_first_stop opts _ Hfind) as (pre & post & -> & Hpre & Hx).
    assert (forall v, a = Some v -> nul_free v) as Hn.
    { apply Forall_app in Hargs as [_ Hargs]. apply Forall_cons in Hargs as [Hargs _].
      exact Hargs. }
    pose proof (arg_loop_first_stop s ch a post ops pre (Getopt.start (sys_argv s))
                  (S (Getopt.budget (Getopt.start (sys_argv s)))) "-" "JSON" (started s)
                  Hrun Hpre Hx Hn ltac:(lia)) as Hstop.
    destruct (informational (ch, a)).
    + destruct Hstop as (w' & evs & Hr & _ & Ht & Hne & Hl).
      exists w'. split; [apply bind_exit_eq; unfold main_args; by apply bind_exit_eq|].
      simpl in Ht. rewrite Ht. by split.
    + destruct Hstop as (w' & evs & Hr & _ & Ht & Hne & Hl).
      exists w'. split; [apply bind_exit_eq; unfold main_args; by apply bind_exit_eq|].
      simpl in Ht. rewrite Ht. split; [exact (usage_error_ending _ _ Hl)|by split].
  - (* every option is accepted: the operands, then the context *)
    pose proof (find_no_stop opts Hfind) as Hacc.
    pose proof (main_args_accepted s opts ops "-" "-" "JSON" (started s) Hrun Hacc) as Ha.
    destruct (main_context_cause s opts ops (started s) eq_refl eq_refl Hhost)
      as (c & w' & -> & Hr & He & Ht).
    destruct ops as [|x [|y more]].
    + rewrite (bind_ret_eq _ _ _ _ _ Ha). cbv beta iota. by exists w'.
    + rewrite (bind_ret_eq _ _ _ _ _ Ha). cbv beta iota. by exists w'.
    + destruct Ha as (w2 & evs & Hr2 & _ & Ht2 & Hne & Hl).
      exists w2. split; [by apply bind_exit_eq|].
      simpl in Ht2. rewrite Ht2. split; [exact (usage_error_ending _ _ Hl)|by split].
Qed.

Lemma exit_status_mirrors_outcome_witness :
  (exists w,
     run (scenario ["-o"; "out"; "policy"] (Some "foo.example.com") true) = Exit 0 w
     /\ trace w = [Export "policy" "out" true])
  /\ (exists w,
        run (scenario ["policy"] (Some "foo.example.com") false) = Exit 1 w
        /\ trace w = [Export "policy" "-" false])
  /\ (exists w,
        run (scenario ["-x"] (Some "foo.example.com") true) = Exit 1 w
        /\ last (trace w) = Some (Stderr (usage_text "cvtsudoers")))
  /\ (exists w,
        run (scenario_no_passwd ["policy"]) = Exit 1 w
        /\ trace w = [Fatalx "you do not exist in the passwd database"])
  /\ (exists w,
        run (scenario_no_defaults ["policy"]) = Exit 1 w
        /\ trace w = [Fatalx "unable to initialize sudoers default values"])
  /\ (exists w,
        run (scenario_no_memory ["policy"] (Some "foo.example.com")) = Exit 1 w
        /\ (trace w = [Fatalx "main: unable to allocate memory"]
            \/ trace w = [Fatalx "get_hostname: unable to allocate memory"])).
Proof.
  assert (forall s opts, sys_hostname s = Some "foo.example.com" ->
                         Forall (fun x => forall v, snd x = Some v -> nul_free v) opts ->
                         c_strings s opts) as Hc.
  { intros s opts Hh Ho. split; [|exact Ho]. intros h Hh'.
    rewrite Hh in Hh'. injection Hh' as <-. reflexivity. }
  repeat split.
  - destruct (exit_status_mirrors_outcome
                (scenario ["-o"; "out"; "policy"] (Some "foo.example.com") true)
                [("o"%char, Some "out")] ["policy"])
      as (w & Hr & _ & Ht & _).
    + read_options.
    + apply Hc; [reflexivity|]. repeat constructor. by intros v [= <-].
    + exists w. split; [exact Hr|exact (proj2 Ht)].
  - destruct (exit_status_mirrors_outcome
                (scenario ["policy"] (Some "foo.example.com") false) [] ["policy"])
      as (w & Hr & _ & Ht & _).
    + read_options.
    + apply Hc; [reflexivity|constructor].
    + exists w. split; [exact Hr|exact (proj2 Ht)].
  - destruct (exit_status_mirrors_outcome
                (scenario ["-x"] (Some "foo.example.com") true) [("?"%char, None)] [])
      as (w & Hr & _ & Hl & _).
    + read_options.
    + apply Hc; [reflexivity|]. repeat constructor. by intros v [=].
    + exists w. split; [exact Hr|exact (proj2 Hl)].
  - destruct (exit_status_mirrors_outcome (scenario_no_passwd ["policy"]) [] ["policy"])
      as (w & Hr & _ & Ht & _).
    + read_options.
    + apply Hc; [reflexivity|constructor].
    + exists w. split; [exact Hr|exact Ht].
  - destruct (exit_status_mirrors_outcome (scenario_no_defaults ["policy"]) [] ["policy"])
      as (w & Hr & _ & Ht & _).
    + read_options.
    + apply Hc; [reflexivity|constructor].
    + exists w. split; [exact Hr|exact Ht].
  - destruct (exit_status_mirrors_outcome
                (scenario_no_memory ["policy"] (Some "foo.example.com")) [] ["policy"])
      as (w & Hr & _ & Ht & _).
    + read_options.
    + apply Hc; [reflexivity|constructor].
    + exists w. split; [exact Hr|exact Ht].
Defined.

(** ** What a run may write *)

(** One turn of the [switch]: the loop goes on with the state as it was,
    or the run ends after one of four things written. *)
Lemma arg_case_shapes s ch a o f w :
  with_optarg ch a ->
  (exists o' f', arg_case s ch a o f w = Ret (o', f') w)
  \/ exists c w' evs,
       arg_case s ch a o f w = Exit c w'
       /\ trace w' = trace w ++ evs
       /\ option_exit_events s (progname w) evs.
Proof.
  unfold with_optarg. intros Ha.
  destruct (known_option ch) eqn:Hk.
  - unfold known_option in Hk.
    destruct (Ascii.eqb ch "f"%char) eqn:Ef.
    { destruct Ha as [v ->]; [reflexivity|]. apply Ascii.eqb_eq in Ef. subst ch.
      destruct (strcasecmp v "json" =? 0)%Z eqn:E.
      - left. unfold arg_case. simpl. rewrite E. simpl. eauto.
      - right. unfold arg_case. simpl. rewrite E. simpl.
        eexists _, _, [_; _]. split; [reflexivity|]. split.
        + simpl. by rewrite <- app_assoc.
        + right; right; right; left. by exists v. }
    destruct (Ascii.eqb ch "h"%char) eqn:Eh.
    { right. unfold arg_case. rewrite Ef, Eh.
      eexists _, _, (help_events (progname w)). split; [reflexivity|]. split.
      - simpl. by rewrite <- !app_assoc.
      - by left. }
    destruct (Ascii.eqb ch "o"%char) eqn:Eo.
    { destruct Ha as [v ->]; [reflexivity|]. left.
      unfold arg_case. rewrite Ef, Eh, Eo. eauto. }
    simpl in Hk. right. unfold arg_case. rewrite Ef, Eh, Eo, Hk.
    eexists _, _, (version_events s (progname w)). split; [reflexivity|]. split.
    + simpl. by rewrite <- !app_assoc.
    + right; by left.
  - right. rewrite (arg_case_unknown s ch a o f w Hk).
    eexists _, _, [_]. split; [reflexivity|]. split; [reflexivity|].
    right; right; by left.
Qed.

Lemma arg_loop_shapes s fuel : forall g o f w,
  (Getopt.budget g < fuel)%nat ->
  (exists g' o' f', arg_loop s fuel g o f w = Ret (g', o', f') w)
  \/ exists c w' evs,
       arg_loop s fuel g o f w = Exit c w'
       /\ trace w' = trace w ++ evs
       /\ option_exit_events s (progname w) evs.
Proof.
  induction fuel as [|fuel IH]; intros g o f w Hb; [lia|].
  destruct (Getopt.getopt_long short_opts long_opts g) as [[ch a|] g'] eqn:Hg.
  - rewrite (arg_loop_opt s fuel g g' ch a o f w Hg).
    destruct (Ascii.eqb ch "?"%char).
    { right. eexists _, _, [_; _]. split; [reflexivity|]. split.
      - simpl. by rewrite <- app_assoc.
      - right; right; right; right. by exists g. }
    pose proof (getopt_long_budget _ _ _ _ _ _ Hg) as Hlt.
    pose proof (getopt_long_optarg _ _ _ _ Hg) as Ha.
    unfold bind.
    destruct (arg_case_shapes s ch a o f w Ha)
      as [(o' & f' & Hr)|(c & w' & evs & Hr & H)]; rewrite Hr.
    + apply IH. lia.
    + right. by exists c, w', evs.
  - left. rewrite (arg_loop_end s fuel g g' o f w Hg). by exists g', o, f.
Qed.

(** X13: what a run may let see.  Every run ends, and its trace is one
    of: nothing; a single fatal message, one of the four cvtsudoers.c
    has; the three pieces of the help text; the two version lines; the
    usage line on the standard error, alone, after the warning about an
    unsupported format, or after the message getopt_long wrote about an
    element it refused; or a single call of the exporter.  So no run
    writes both to the standard output and the standard error, none writes
    anything besides calling the exporter, and none calls it twice. *)
Theorem run_trace_shapes (s : sys) :
  exists c w, run s = Exit c w /\ run_trace s (trace w).
Proof.
  rewrite run_eq, main_startup_eq. cbv zeta. fold (started s).
  destruct (sys_initlocale s); simpl.
  2: { eexists _, _. split; [reflexivity|]. right; left.
       exists "main: unable to allocate memory". split; [by left|reflexivity]. }
  destruct (sys_conf_read s =? -1)%Z.
  { eexists _, _. split; [reflexivity|]. by left. }
  destruct (sys_debug_register s); simpl.
  2: { eexists _, _. split; [reflexivity|]. by left. }
  destruct (arg_loop_shapes s (S (Getopt.budget (Getopt.start (sys_argv s))))
              (Getopt.start (sys_argv s)) "-" "JSON" (started s))
    as [(g & o & f & Hr)|(c & w' & evs & Hr & Ht & Hev)]; [lia| |].
  - pose proof (main_args_after_loop s g "-" "-" "JSON" o f (started s) Hr) as Ha.
    destruct (Getopt.operands g) as [|x [|y more]].
    + rewrite (bind_ret_eq _ _ _ _ _ Ha). cbv beta iota.
      rewrite (main_context_eq s "-" o (started s) eq_refl).
      destruct (spec_identity s) as [p|].
      2: { eexists _, _. split; [reflexivity|]. right; left.
           eexists. split; [|reflexivity]. right; by left. }
      destruct (get_hostname_cases s (with_identity (Some p) (started s)))
        as [(w1 & Hr1 & Ht1 & _)|(_ & w1 & Hr1 & Ht1)]; rewrite Hr1.
      * destruct (sys_init_defaults s).
        -- eexists _, _. split; [reflexivity|]. right; right; right.
           exists "-", o. simpl. by rewrite Ht1.
        -- eexists _, _. split; [reflexivity|]. right; left.
           eexists. split; [|simpl; by rewrite Ht1]. right; right; right; by left.
      * eexists _, _. split; [reflexivity|]. right; left.
        eexists. split; [|exact Ht1]. right; right; by left.
    + rewrite (bind_ret_eq _ _ _ _ _ Ha). cbv beta iota.
      rewrite (main_context_eq s x o (started s) eq_refl).
      destruct (spec_identity s) as [p|].
      2: { eexists _, _. split; [reflexivity|]. right; left.
           eexists. split; [|reflexivity]. right; by left. }
      destruct (get_hostname_cases s (with_identity (Some p) (started s)))
        as [(w1 & Hr1 & Ht1 & _)|(_ & w1 & Hr1 & Ht1)]; rewrite Hr1.
      * destruct (sys_init_defaults s).
        -- eexists _, _. split; [reflexivity|]. right; right; right.
           exists x, o. simpl. by rewrite Ht1.
        -- eexists _, _. split; [reflexivity|]. right; left.
           eexists. split; [|simpl; by rewrite Ht1]. right; right; right; by left.
      * eexists _, _. split; [reflexivity|]. right; left.
        eexists. split; [|exact Ht1]. right; right; by left.
    + rewrite (bind_exit_eq _ _ _ _ _ Ha).
      eexists _, _. split; [reflexivity|]. right; right; left.
      right; right; by left.
  - assert (main_args s "-" "-" "JSON" (started s) = Exit c w') as Ha
      by (unfold main_args; by apply bind_exit_eq).
    rewrite (bind_exit_eq _ _ _ _ _ Ha).
    exists c, w'. split; [reflexivity|]. right; right; left.
    simpl in Ht. by rewrite Ht.
Qed.

(** ** The output format *)

(** X14: the value given to -f is checked and then forgotten: it never
    reaches the exporter.  Two argument vectors with the same [argv[0]]
    whose options are all taken, and which leave the same operands and the
    same last -o, give the same run in every respect, whatever -f options
    either of them holds. *)
Theorem output_format_is_not_passed_on
    (s : sys) (argv0 : string) (args1 args2 : list string)
    (opts1 opts2 : list (ascii * option string)) (ops : list string) :
  options_of (Getopt.start (argv0 :: args1)) opts1 ops ->
  options_of (Getopt.start (argv0 :: args2)) opts2 ops ->
  Forall (fun x => accepted x = true) opts1 ->
  Forall (fun x => accepted x = true) opts2 ->
  final_output opts1 "-" = final_output opts2 "-" ->
  run (with_argv (argv0 :: args1) s) = run (with_argv (argv0 :: args2) s).
Proof.
  intros Hrun1 Hrun2 Hacc1 Hacc2 Hout. rewrite !run_eq.
  change (main_startup (with_argv (argv0 :: args1) s))
    with (main_startup (with_argv (argv0 :: args2) s)).
  destruct (main_startup (with_argv (argv0 :: args2) s) EXIT_FAILURE world0)
    as [[] w1|c w1| |]; try reflexivity.
  destruct (arg_loop_accepted (with_argv (argv0 :: args1) s) _ opts1 ops Hrun1 Hacc1
              (S (Getopt.budget (Getopt.start (argv0 :: args1)))) "-" "JSON" w1)
    as (g1 & Hr1 & Hops1); [lia|].
  destruct (arg_loop_accepted (with_argv (argv0 :: args2) s) _ opts2 ops Hrun2 Hacc2
              (S (Getopt.budget (Getopt.start (argv0 :: args2)))) "-" "JSON" w1)
    as (g2 & Hr2 & Hops2); [lia|].
  pose proof (main_args_after_loop (with_argv (argv0 :: args1) s) g1 "-" "-" "JSON" _ _ w1 Hr1)
    as Ha1.
  pose proof (main_args_after_loop (with_argv (argv0 :: args2) s) g2 "-" "-" "JSON" _ _ w1 Hr2)
    as Ha2.
  rewrite Hops1 in Ha1. rewrite Hops2 in Ha2. rewrite Hout in Ha1.
  destruct ops as [|x [|y more]].
  - rewrite (bind_ret_eq _ _ _ _ _ Ha1), (bind_ret_eq _ _ _ _ _ Ha2). reflexivity.
  - rewrite (bind_ret_eq _ _ _ _ _ Ha1), (bind_ret_eq _ _ _ _ _ Ha2). reflexivity.
  - rewrite (bind_exit_eq _ _ _ _ _ Ha1), (bind_exit_eq _ _ _ _ _ Ha2). reflexivity.
Qed.

Lemma output_format_is_not_passed_on_witness :
  run (with_argv ["cvtsudoers"; "-f"; "json"; "-o"; "out"; "policy"]
                 (scenario [] (Some "foo.example.com") true))
  = run (with_argv ["cvtsudoers"; "policy"; "--output=out"; "-fJSON"; "--format"; "JsOn"]
                   (scenario [] (Some "foo.example.com") true)).
Proof.
  apply (output_format_is_not_passed_on (scenario [] (Some "foo.example.com") true)
           "cvtsudoers" ["-f"; "json"; "-o"; "out"; "policy"]
           ["policy"; "--output=out"; "-fJSON"; "--format"; "JsOn"]
           [("f"%char, Some "json"); ("o"%char, Some "out")]
           [("o"%char, Some "out"); ("f"%char, Some "JSON"); ("f"%char, Some "JsOn")]
           ["policy"]).
  - read_options.
  - read_options.
  - repeat constructor.
  - repeat constructor.
  - reflexivity.
Defined.

(** ** Startup *)

(** X5: when startup fails the arguments are never looked at.  If the
    locale, sudo.conf or the debug subsystem cannot be set up, the run ends
    with status 1, having written nothing or only the fatal message about
    memory, and so does the run on any other argument vector: not even -h
    or -V is answered. *)
Theorem startup_failure_ignores_arguments (s : sys) (argv : list string) :
  ~ startup_ok s ->
  exists t,
    (t = [] \/ t = [Fatalx "main: unable to allocate memory"])
    /\ run s = Exit 1 (with_trace t (started s))
    /\ run (with_argv argv s) = Exit 1 (with_trace t (started (with_argv argv s))).
Proof.
  intros Hn. rewrite !run_eq, !main_startup_eq. cbv zeta.
  change (sys_initlocale (with_argv argv s)) with (sys_initlocale s).
  change (sys_conf_read (with_argv argv s)) with (sys_conf_read s).
  change (sys_debug_register (with_argv argv s)) with (sys_debug_register s).
  destruct (sys_initlocale s) eqn:Hl; simpl.
  2: { exists [Fatalx "main: unable to allocate memory"]. split; [by right|]. by split. }
  destruct (sys_conf_read s =? -1)%Z eqn:Hc.
  { exists []. split; [by left|]. by split. }
  destruct (sys_debug_register s) eqn:Hd; simpl.
  2: { exists []. split; [by left|]. by split. }
  exfalso. apply Hn. split; [done|]. split; [by apply Z.eqb_neq|done].
Qed.

Lemma startup_failure_ignores_arguments_witness :
  exists t,
    (t = [] \/ t = [Fatalx "main: unable to allocate memory"])
    /\ run (scenario_unreadable_conf [])
       = Exit 1 (with_trace t (started (scenario_unreadable_conf [])))
    /\ run (with_argv ["cvtsudoers"; "-h"] (scenario_unreadable_conf []))
       = Exit 1 (with_trace t
                   (started (with_argv ["cvtsudoers"; "-h"]
                               (scenario_unreadable_conf [])))).
Proof.
  apply (startup_failure_ignores_arguments
           (scenario_unreadable_conf []) ["cvtsudoers"; "-h"]).
  intros (_ & H & _). by apply H.
Defined.

(** ** The acting user and the identity *)

(** [spec_identity] reads the surroundings only through the effective user
    id, SUDO_USER and the two passwd lookups. *)
Lemma main_context_SUDO_USER v s i o w :
  pw (sudo_user w) = None ->
  (main_sudo_user (with_SUDO_USER v s) ;; get_hostname (with_SUDO_USER v s) ;;
   main_export (with_SUDO_USER v s) i o) w =
    match spec_identity (with_SUDO_USER v s) with
    | None =>
        Exit 1 (log (Fatalx "you do not exist in the passwd database")
                    (with_identity None w))
    | Some p => (get_hostname s ;; main_export s i o) (with_identity (Some p) w)
    end.
Proof.
  intros Hpw. unfold bind at 1.
  rewrite (identity_resolution_lines (with_SUDO_USER v s) w Hpw).
  by destruct (spec_identity (with_SUDO_USER v s)).
Qed.

(** X12: SUDO_USER matters to a run only through the record it makes
    identity resolution name.  Two runs that differ only in that variable
    and resolve the same identity (or both none) do the same in every
    respect: so a name the passwd database does not know is passed over
    without a word, as is the name of the invoking user. *)
Theorem SUDO_USER_matters_through_identity (s : sys) (v1 v2 : option string) :
  spec_identity (with_SUDO_USER v1 s) = spec_identity (with_SUDO_USER v2 s) ->
  run (with_SUDO_USER v1 s) = run (with_SUDO_USER v2 s).
Proof.
  intros Hid. rewrite !run_eq.
  change (main_startup (with_SUDO_USER v1 s)) with (main_startup s).
  change (main_startup (with_SUDO_USER v2 s)) with (main_startup s).
  rewrite main_startup_eq. cbv zeta. fold (started s).
  destruct (sys_initlocale s); simpl; [|reflexivity].
  destruct (sys_conf_read s =? -1)%Z; [reflexivity|].
  destruct (sys_debug_register s); simpl; [|reflexivity].
  unfold bind at 1 4. rewrite !main_args_SUDO_USER.
  destruct (main_args_cases s "-" "-" "JSON" (started s))
    as [(i & o & f & Hr)|[(w' & evs & Hr & _)|(w' & evs & Hr & _)]]; rewrite Hr;
    [|reflexivity|reflexivity].
  cbv beta iota.
  rewrite (main_context_SUDO_USER v1 s i o (started s) eq_refl).
  rewrite (main_context_SUDO_USER v2 s i o (started s) eq_refl).
  by rewrite Hid.
Qed.

Lemma SUDO_USER_matters_through_identity_witness :
  run (with_SUDO_USER (Some "mallory") (scenario_sudo ["policy"] "root"))
  = run (with_SUDO_USER None (scenario_sudo ["policy"] "root"))
  /\ run (with_SUDO_USER (Some "mallory") (scenario_sudo ["policy"] "root"))
     = run (with_SUDO_USER (Some "root") (scenario_sudo ["policy"] "root")).
Proof.
  split.
  - exact (SUDO_USER_matters_through_identity (scenario_sudo ["policy"] "root")
             (Some "mallory") None eq_refl).
  - exact (SUDO_USER_matters_through_identity (scenario_sudo ["policy"] "root")
             (Some "mallory") (Some "root") eq_refl).
Defined.

(** ** The warning about the format *)

(** X15: the warning names the value that was refused.  When the first
    option that is not taken is a -f/--format whose value (a C string)
    is no case-insensitive match for "json", the run writes the warning
    "unsupported output format" followed by that very value, then the usage
    line on the standard error, nothing else, and ends with status 1. *)
Theorem unsupported_format_is_named
    (s : sys) (pre post : list (ascii * option string)) (v : string) (ops : list string) :
  startup_ok s ->
  options_of (Getopt.start (sys_argv s)) (pre ++ ("f"%char, Some v) :: post) ops ->
  Forall (fun x => accepted x = true) pre ->
  nul_free v ->
  ci_match v "json" = false ->
  run s = Exit 1 (with_trace [Warnx ("unsupported output format " +:+ v);
                              Stderr (usage_text (progname (started s)))]
                             (started s)).
Proof.
  intros Hs Hrun Hacc Hv Hm.
  apply (run_first_exit s pre "f"%char (Some v) post ops 1 _ Hs Hrun Hacc eq_refl).
  unfold arg_case. simpl. by rewrite (no_ci_match_json v Hv Hm).
Qed.

Lemma unsupported_format_is_named_witness :
  run (scenario ["--format=JSON"; "-o"; "out"; "-f"; "yaml"; "-f"; "json"] None true)
  = Exit 1 (with_trace [Warnx "unsupported output format yaml";
                        Stderr (usage_text "cvtsudoers")]
              (started (scenario ["--format=JSON"; "-o"; "out"; "-f"; "yaml"; "-f"; "json"]
                                 None true))).
Proof.
  apply (unsupported_format_is_named
           (scenario ["--format=JSON"; "-o"; "out"; "-f"; "yaml"; "-f"; "json"] None true)
           [("f"%char, Some "JSON"); ("o"%char, Some "out")] [("f"%char, Some "json")]
           "yaml" []).
  - repeat split; discriminate.
  - read_options.
  - repeat constructor.
  - reflexivity.
  - reflexivity.
Defined.
